(** * Camera control of the graphics canvas

    A shallow embedding of [graphics/graphics_canvas.py]: the scene set-up
    ([init_canvas], [convert_grid_to_z_up]), the reference-frame gizmo
    ([draw_reference_frame_axes]), the keyboard camera controller
    ([handle_keyboard_inputs]) and [reset_camera].

    Numbers.  The Python code computes with floats; here every float is a
    real number of the Standard Library, so [sqrt], [cos] and [sin] are the
    exact functions and equalities are the exact counterparts of the
    "within tolerance" statements of the description.

    Host toolkit.  The module drives the global [scene] object of the 3D
    toolkit.  The parts of that object the module touches are modelled by
    the record [canvas] below, together with the toolkit's vector
    operations ([cross], [mag], [norm], [rotate], ...). *)

From Stdlib Require Import Reals Lra List String Bool ZArith Permutation.
Import ListNotations.

Local Open Scope R_scope.

(** ** Vectors of the toolkit *)

Module Vec.

Record vector : Type := Vector { vx : R; vy : R; vz : R }.

Definition vzero : vector := Vector 0 0 0.

(** [a + b] *)
Definition vadd (a b : vector) : vector :=
  Vector (vx a + vx b) (vy a + vy b) (vz a + vz b).

(** [a - b] *)
Definition vsub (a b : vector) : vector :=
  Vector (vx a - vx b) (vy a - vy b) (vz a - vz b).

(** [-a] *)
Definition vneg (a : vector) : vector :=
  Vector (- vx a) (- vy a) (- vz a).

(** [a * k] for a scalar [k] *)
Definition vmul (a : vector) (k : R) : vector :=
  Vector (vx a * k) (vy a * k) (vz a * k).

(** [a / k] for a scalar [k] *)
Definition vdiv (a : vector) (k : R) : vector :=
  Vector (vx a / k) (vy a / k) (vz a / k).

(** [a.dot(b)] *)
Definition dot (a b : vector) : R :=
  vx a * vx b + vy a * vy b + vz a * vz b.

(** [a.cross(b)] *)
Definition cross (a b : vector) : vector :=
  Vector (vy a * vz b - vz a * vy b)
         (vz a * vx b - vx a * vz b)
         (vx a * vy b - vy a * vx b).

(** [a.mag] *)
Definition mag (a : vector) : R := sqrt (dot a a).

(** [norm(a)], also [a.hat]: the unit vector along [a], and the zero vector
    for a vector of magnitude zero. *)
Definition norm (a : vector) : vector :=
  if Req_dec_T (mag a) 0 then vzero else vdiv a (mag a).

(** [a.mag = m]: the assignment keeps the direction and sets the length. *)
Definition set_mag (m : R) (a : vector) : vector := vmul (norm a) m.

(** [radians(deg)] *)
Definition radians (deg : R) : R := deg * PI / 180.

(** [v.rotate(angle=angle, axis=axis)]: the rotation matrix about the unit
    vector along [axis], applied to [v]. *)
Definition rotate (angle : R) (axis v : vector) : vector :=
  let u := norm axis in
  let c := cos angle in
  let s := sin angle in
  let t := 1 - c in
  let x := vx u in
  let y := vy u in
  let z := vz u in
  let m11 := t * x * x + c in
  let m12 := t * x * y - z * s in
  let m13 := t * x * z + y * s in
  let m21 := t * x * y + z * s in
  let m22 := t * y * y + c in
  let m23 := t * y * z - x * s in
  let m31 := t * x * z - y * s in
  let m32 := t * y * z + x * s in
  let m33 := t * z * z + c in
  Vector (m11 * vx v + m12 * vy v + m13 * vz v)
         (m21 * vx v + m22 * vy v + m23 * vz v)
         (m31 * vx v + m32 * vy v + m33 * vz v).

End Vec.
Export Vec.

(** ** The scene of the host toolkit

    The toolkit stores, for a canvas, the point the camera looks at
    ([center]), the viewing direction ([forward]), the distance of the
    camera from that point and the [up] vector; the camera attributes
    [scene.camera.pos] and [scene.camera.axis] are computed from these.
    The camera distance, which the toolkit keeps as [range / tan(fov/2)],
    is the single field [reach] here. *)

Inductive color : Type := black | white | red | green | blue.

(** The callbacks of this module that are handed to the toolkit. *)
Inductive callback : Type :=
| cb_handle_keyboard_inputs
| cb_reset_camera
| cb_menu_item_chosen
| cb_reference_frame_checkbox
| cb_robot_visibility_checkbox
| cb_opacity_slider.

Inductive widget : Type :=
| button (bind : callback) (text : string)
| menu (choices : list string) (bind : callback)
| checkbox (bind : callback) (text : string)
| slider (bind : callback).

Record canvas : Type := Canvas {
  background : color;
  width : Z;
  height : Z;
  autoscale : bool;
  userpan : bool;
  userzoom : bool;
  userspin : bool;
  title : string;
  caption : string;
  widgets : list widget;
  bound : list (string * callback);
  center : vector;
  forward : vector;
  reach : R;
  up : vector
}.

(** [scene.center = v], [scene.forward = v], [scene.up = v] *)
Definition set_center (v : vector) (s : canvas) : canvas :=
  Canvas (background s) (width s) (height s) (autoscale s) (userpan s)
         (userzoom s) (userspin s) (title s) (caption s) (widgets s)
         (bound s) v (forward s) (reach s) (up s).

Definition set_forward (v : vector) (s : canvas) : canvas :=
  Canvas (background s) (width s) (height s) (autoscale s) (userpan s)
         (userzoom s) (userspin s) (title s) (caption s) (widgets s)
         (bound s) (center s) v (reach s) (up s).

Definition set_reach (r : R) (s : canvas) : canvas :=
  Canvas (background s) (width s) (height s) (autoscale s) (userpan s)
         (userzoom s) (userspin s) (title s) (caption s) (widgets s)
         (bound s) (center s) (forward s) r (up s).

Definition set_up (v : vector) (s : canvas) : canvas :=
  Canvas (background s) (width s) (height s) (autoscale s) (userpan s)
         (userzoom s) (userspin s) (title s) (caption s) (widgets s)
         (bound s) (center s) (forward s) (reach s) v.

(** [scene.autoscale = b] *)
Definition set_autoscale (b : bool) (s : canvas) : canvas :=
  Canvas (background s) (width s) (height s) b (userpan s)
         (userzoom s) (userspin s) (title s) (caption s) (widgets s)
         (bound s) (center s) (forward s) (reach s) (up s).

(** [scene.append_to_caption(text)] *)
Definition append_to_caption (text : string) (s : canvas) : canvas :=
  Canvas (background s) (width s) (height s) (autoscale s) (userpan s)
         (userzoom s) (userspin s) (title s) (caption s ++ text) (widgets s)
         (bound s) (center s) (forward s) (reach s) (up s).

(** Creating a widget places it on the canvas. *)
Definition add_widget (w : widget) (s : canvas) : canvas :=
  Canvas (background s) (width s) (height s) (autoscale s) (userpan s)
         (userzoom s) (userspin s) (title s) (caption s) (widgets s ++ [w])
         (bound s) (center s) (forward s) (reach s) (up s).

(** [scene.bind(event, f)] *)
Definition bind_event (event : string) (f : callback) (s : canvas) : canvas :=
  Canvas (background s) (width s) (height s) (autoscale s) (userpan s)
         (userzoom s) (userspin s) (title s) (caption s) (widgets s)
         (bound s ++ [(event, f)]) (center s) (forward s) (reach s) (up s).

(** [scene.camera.axis]: the vector from the camera to the centre. *)
Definition camera_axis (s : canvas) : vector :=
  vmul (norm (forward s)) (reach s).

(** [scene.camera.pos]: the centre seen from the far end of the axis. *)
Definition camera_pos (s : canvas) : vector :=
  vsub (center s) (camera_axis s).

(** [scene.camera.up] is the up vector of the canvas. *)
Definition camera_up (s : canvas) : vector := up s.

(** [scene.camera.pos = value]: the toolkit switches the autoscale of the
    canvas off; the camera keeps its axis, so the centre follows the camera
    ("Changing camera position updates the scene center to follow same
    changes"). *)
Definition set_camera_pos (value : vector) (s : canvas) : canvas :=
  let s := set_autoscale false s in
  set_center (vadd value (camera_axis s)) s.

(** [scene.camera.axis = value]: the toolkit switches the autoscale of the
    canvas off; the camera stays where it is and the centre moves to the tip
    of the new axis. *)
Definition set_camera_axis (value : vector) (s : canvas) : canvas :=
  let s := set_autoscale false s in
  let s1 := set_center (vadd (camera_pos s) value) s in
  let s2 := set_forward (norm value) s1 in
  set_reach (mag value) s2.

(** ** Names imported from [graphics.common_functions] and
    [graphics.graphics_grid] *)

(** Modelled from the spec: the constants [x_axis_vector], [y_axis_vector]
    and [z_axis_vector] of [graphics/common_functions.py], which is not among
    the sources; they are the unit vectors of the world axes. *)
Definition x_axis_vector : vector := Vector 1 0 0.
Definition z_axis_vector : vector := Vector 0 0 1.



(** Modelled from the spec: the grid overlay class [GraphicsGrid] of
    [graphics/graphics_grid.py], which is not among the sources; the handle
    records the [set_visibility] calls made on it, oldest first. *)
Record GraphicsGrid : Type := Grid { visibility_calls : list bool }.

Definition new_GraphicsGrid : GraphicsGrid := Grid [].

Definition set_visibility (is_visible : bool) (g : GraphicsGrid) : GraphicsGrid :=
  Grid (visibility_calls g ++ [is_visible]).

(** ** Objects drawn on the canvas *)






(** ** The user interface *)

(** The double-quote character of the control manual. *)
Definition dq : string := String (Ascii.ascii_of_nat 34) EmptyString.

(** The control manual appended to the caption. *)
Definition controls_str : string :=
  ("<br><b>Controls</b><br>"
   ++ "<b>PAN</b><br>"
   ++ "W , S | <i>forward / backward</i><br>"
   ++ "A , D | <i>left / right</i><br>"
   ++ "SPACE , SHIFT | <i>up / down</i><br>"
   ++ "<b>ROTATE</b><br>"
   ++ "CTRL + LMB | <i>free spin</i><br>"
   ++ "ARROWS KEYS | <i>rotate direction</i><br>"
   ++ "Q , E | <i>roll left / right</i><br>"
   ++ "<b>ZOOM</b></br>"
   ++ "MOUSEWHEEL | <i>zoom in / out</i><br>"
   ++ "<script type=" ++ dq ++ "text/javascript" ++ dq
   ++ ">var arrow_keys_handler = function(e) {switch(e.keyCode){ case 37: case 39: case 38:  case 40: case 32: e.preventDefault(); break; default: break;}};window.addEventListener("
   ++ dq ++ "keydown" ++ dq ++ ", arrow_keys_handler, false);</script>")%string.

Definition newline : string := String (Ascii.ascii_of_nat 10) EmptyString.
Definition tab : string := String (Ascii.ascii_of_nat 9) EmptyString.

(** [setup_ui_controls()]: returns the scene with the widgets placed and the
    list of the five widgets. *)
Definition setup_ui_controls (scene : canvas) : canvas * list widget :=
  let scene := append_to_caption newline scene in
  let btn_reset := button cb_reset_camera "Reset Camera" in
  let scene := add_widget btn_reset scene in
  let scene := append_to_caption tab scene in
  let menu_robots := menu ["r1"; "r2"]%string cb_menu_item_chosen in
  let scene := add_widget menu_robots scene in
  let scene := append_to_caption newline scene in
  let chkbox_ref := checkbox cb_reference_frame_checkbox "Show Reference Frames" in
  let scene := add_widget chkbox_ref scene in
  let scene := append_to_caption tab scene in
  let chkbox_rob := checkbox cb_robot_visibility_checkbox "Show Robot" in
  let scene := add_widget chkbox_rob scene in
  let scene := append_to_caption newline scene in
  let scene := append_to_caption "Opacity:" scene in
  let sld_opc := slider cb_opacity_slider in
  let scene := add_widget sld_opc scene in
  let scene := append_to_caption newline scene in
  let scene := append_to_caption controls_str scene in
  (scene, [btn_reset; menu_robots; chkbox_ref; chkbox_rob; sld_opc]).

(** ** Scene set-up *)

(** [convert_grid_to_z_up()] *)
Definition convert_grid_to_z_up (scene : canvas) : canvas :=
  let scene := set_forward x_axis_vector scene in
  let scene := set_up z_axis_vector scene in
  let scene := set_camera_pos (Vector 10 10 10) scene in
  set_camera_axis (vneg (camera_pos scene)) scene.

(** The settings written at the start of [init_canvas]. *)
Definition apply_settings (h w : Z) (new_title new_caption : string)
    (s : canvas) : canvas :=
  Canvas white w h false
         false true true
         (if String.eqb new_title "" then title s else new_title)
         (if String.eqb new_caption "" then caption s else new_caption)
         (widgets s) (bound s) (center s) (forward s) (reach s) (up s).

(** [init_canvas(height, width, title, caption, grid)]: returns the scene as
    it is left and the grid handle.  The call [rate(30)] only waits and
    leaves the scene as it is. *)
Definition init_canvas (height width : Z) (title caption : string)
    (grid : bool) (scene : canvas) : canvas * GraphicsGrid :=
  let scene := apply_settings height width title caption scene in
  let '(scene, ui_controls) := setup_ui_controls scene in
  let scene := convert_grid_to_z_up scene in
  let scene := bind_event "keydown" cb_handle_keyboard_inputs scene in
  let graphics_grid := new_GraphicsGrid in
  let graphics_grid :=
    if negb grid then set_visibility false graphics_grid else graphics_grid in
  (scene, graphics_grid).

(** ** The reference-frame gizmo *)


(** ** The keyboard camera controller *)

Definition pan_amount : R := 0.02.
Definition rot_amount : R := 1.0.

(** ['k' in keys] for the list of held keys returned by [keysdown()]. *)
Definition key_in (k : string) (keys : list string) : bool :=
  existsb (String.eqb k) keys.

(** The PANNING block. *)
Definition panning (keys : list string)
    (cam_axis cam_side_axis cam_up cam_pos : vector) : vector :=
  let cam_pos :=
    if key_in "w" keys then vadd cam_pos (vmul cam_axis pan_amount) else cam_pos in
  let cam_pos :=
    if key_in "s" keys then vsub cam_pos (vmul cam_axis pan_amount) else cam_pos in
  let cam_pos :=
    if key_in "a" keys then vadd cam_pos (vmul cam_side_axis pan_amount) else cam_pos in
  let cam_pos :=
    if key_in "d" keys then vsub cam_pos (vmul cam_side_axis pan_amount) else cam_pos in
  let cam_pos :=
    if key_in " " keys then vadd cam_pos (vmul cam_up pan_amount) else cam_pos in
  let cam_pos :=
    if key_in "shift" keys then vsub cam_pos (vmul cam_up pan_amount) else cam_pos in
  cam_pos.

(** The Camera Roll block: the local [cam_up] and the scene after it. *)
Definition camera_roll (keys : list string) (cam_axis cam_up : vector)
    (scene : canvas) : vector * canvas :=
  let '(cam_up, scene) :=
    if key_in "q" keys && negb (key_in "e" keys) then
      let cam_up := rotate (- radians rot_amount) cam_axis cam_up in
      let cam_up := set_mag (mag cam_axis) cam_up in
      (cam_up, set_up cam_up scene)
    else (cam_up, scene) in
  if key_in "e" keys && negb (key_in "q" keys) then
    let cam_up := rotate (radians rot_amount) cam_axis cam_up in
    let cam_up := set_mag (mag cam_axis) cam_up in
    (cam_up, set_up cam_up scene)
  else (cam_up, scene).

(** The distance to translate for one rotation step ("SAS Cosine"). *)
Definition move_dist (d : R) : R :=
  sqrt (d ^ 2 + d ^ 2 - 2 * d * d * cos (radians rot_amount)).

(** The CAMERA ROTATION block: the locals [cam_pos] and [cam_axis] after it. *)
Definition camera_rotation (keys : list string)
    (cam_focus cam_side_axis cam_up : vector) (d : R)
    (cam_pos cam_axis : vector) : vector * vector :=
  let move_dist := move_dist d in
  let '(cam_pos, cam_axis) :=
    if key_in "left" keys && negb (key_in "right" keys) then
      let cam_pos := vadd cam_pos (vmul (norm cam_side_axis) move_dist) in
      (cam_pos, vneg (vsub cam_pos cam_focus))
    else (cam_pos, cam_axis) in
  let '(cam_pos, cam_axis) :=
    if key_in "right" keys && negb (key_in "left" keys) then
      let cam_pos := vsub cam_pos (vmul (norm cam_side_axis) move_dist) in
      (cam_pos, vneg (vsub cam_pos cam_focus))
    else (cam_pos, cam_axis) in
  let '(cam_pos, cam_axis) :=
    if key_in "up" keys && negb (key_in "down" keys) then
      let cam_pos := vadd cam_pos (vmul (norm cam_up) move_dist) in
      (cam_pos, vneg (vsub cam_pos cam_focus))
    else (cam_pos, cam_axis) in
  if key_in "down" keys && negb (key_in "up" keys) then
    let cam_pos := vsub cam_pos (vmul (norm cam_up) move_dist) in
    (cam_pos, vneg (vsub cam_pos cam_focus))
  else (cam_pos, cam_axis).

(** [handle_keyboard_inputs()], with the held keys that [keysdown()] returns
    as the argument [keys]. *)
Definition handle_keyboard_inputs (keys : list string) (scene : canvas) : canvas :=
  let cam_distance := mag (camera_axis scene) in
  let cam_pos := camera_pos scene in
  let cam_focus := center scene in
  let cam_axis := camera_axis scene in
  let cam_side_axis := cross (camera_up scene) cam_axis in
  let cam_up := cross cam_axis cam_side_axis in
  let cam_up := set_mag (mag cam_axis) cam_up in
  if key_in "ctrl" keys then scene
  else
    let cam_pos := panning keys cam_axis cam_side_axis cam_up cam_pos in
    let scene := set_camera_pos cam_pos scene in
    let '(cam_up, scene) := camera_roll keys cam_axis cam_up scene in
    let d := cam_distance in
    let '(cam_pos, cam_axis) :=
      camera_rotation keys cam_focus cam_side_axis cam_up d cam_pos cam_axis in
    let scene := set_camera_pos cam_pos scene in
    set_camera_axis cam_axis scene.

(** [reset_camera()] *)
Definition reset_camera (scene : canvas) : canvas :=
  let scene := set_up z_axis_vector scene in
  let scene := set_camera_pos (Vector 10 10 10) scene in
  set_camera_axis (vneg (camera_pos scene)) scene.

(** ** Sample scenes *)

(** A freshly created canvas of the toolkit: it looks down the negative
    z axis with the y axis up. *)
Definition blank_scene : canvas :=
  Canvas black 640 400 true true true true "" "" [] []
         vzero (Vector 0 0 (-1)) 1 (Vector 0 1 0).

(** The default pose: the blank canvas after [reset_camera]. *)
Definition home : canvas := reset_camera blank_scene.

(** The camera-to-focus distance of a scene. *)
Definition focus_distance (s : canvas) : R :=
  mag (vsub (center s) (camera_pos s)).

(** ** Vocabulary of the statements *)

(** The camera-relative basis that the handler computes before it looks at
    the keys: forward, side and up. *)
Definition basis_forward (s : canvas) : vector := camera_axis s.

Definition basis_side (s : canvas) : vector :=
  cross (camera_up s) (camera_axis s).

Definition basis_up (s : canvas) : vector :=
  set_mag (mag (camera_axis s)) (cross (camera_axis s) (basis_side s)).

(** The local [cam_up] after the roll block. *)
Definition rolled_up (keys : list string) (s : canvas) : vector :=
  fst (camera_roll keys (camera_axis s) (basis_up s) s).

(** The local [cam_pos] after the panning block. *)
Definition panned (keys : list string) (s : canvas) : vector :=
  panning keys (basis_forward s) (basis_side s) (basis_up s) (camera_pos s).

(** The locals [cam_pos] and [cam_axis] after the rotation block. *)
Definition rotated (keys : list string) (s : canvas) : vector * vector :=
  camera_rotation keys (center s) (basis_side s) (rolled_up keys s)
    (mag (camera_axis s)) (panned keys s) (camera_axis s).

(** An orbit step is taken when an arrow key is held without its opposite. *)
Definition orbit_taken (keys : list string) : bool :=
  (key_in "left" keys && negb (key_in "right" keys))
  || (key_in "right" keys && negb (key_in "left" keys))
  || (key_in "up" keys && negb (key_in "down" keys))
  || (key_in "down" keys && negb (key_in "up" keys)).

(** The keys that move the camera. *)
Inductive move_key : Type :=
| KeyW | KeyS | KeyA | KeyD | KeySpace | KeyShift
| KeyLeft | KeyRight | KeyUp | KeyDown.

Definition movement_keys : list move_key :=
  [KeyW; KeyS; KeyA; KeyD; KeySpace; KeyShift;
   KeyLeft; KeyRight; KeyUp; KeyDown].

Definition key_name (k : move_key) : string :=
  match k with
  | KeyW => "w" | KeyS => "s" | KeyA => "a" | KeyD => "d"
  | KeySpace => " " | KeyShift => "shift"
  | KeyLeft => "left" | KeyRight => "right"
  | KeyUp => "up" | KeyDown => "down"
  end.

Definition opposite (k : move_key) : move_key :=
  match k with
  | KeyW => KeyS | KeyS => KeyW | KeyA => KeyD | KeyD => KeyA
  | KeySpace => KeyShift | KeyShift => KeySpace
  | KeyLeft => KeyRight | KeyRight => KeyLeft
  | KeyUp => KeyDown | KeyDown => KeyUp
  end.

(** The offset a movement key contributes to the camera position when the
    set [keys] is held: a pan key contributes whenever it is held, an arrow
    key when it is held without its opposite. *)
Definition key_offset (keys : list string) (s : canvas) (k : move_key) : vector :=
  let step := move_dist (mag (camera_axis s)) in
  let held := key_in (key_name k) keys in
  let alone := held && negb (key_in (key_name (opposite k)) keys) in
  match k with
  | KeyW => if held then vmul (basis_forward s) pan_amount else vzero
  | KeyS => if held then vneg (vmul (basis_forward s) pan_amount) else vzero
  | KeyA => if held then vmul (basis_side s) pan_amount else vzero
  | KeyD => if held then vneg (vmul (basis_side s) pan_amount) else vzero
  | KeySpace => if held then vmul (basis_up s) pan_amount else vzero
  | KeyShift => if held then vneg (vmul (basis_up s) pan_amount) else vzero
  | KeyLeft => if alone then vmul (norm (basis_side s)) step else vzero
  | KeyRight => if alone then vneg (vmul (norm (basis_side s)) step) else vzero
  | KeyUp => if alone then vmul (norm (rolled_up keys s)) step else vzero
  | KeyDown => if alone then vneg (vmul (norm (rolled_up keys s)) step) else vzero
  end.



Definition pan_keys : list move_key :=
  [KeyW; KeyS; KeyA; KeyD; KeySpace; KeyShift].

Definition arrow_keys : list move_key :=
  [KeyLeft; KeyRight; KeyUp; KeyDown].

(** The unit direction of the orbit step of an arrow key: along the side
    axis for left and right, along the up axis (the local [cam_up] after
    the roll block) for up and down. *)
Definition orbit_dir (keys : list string) (k : move_key) (s : canvas) : vector :=
  match k with
  | KeyLeft => norm (basis_side s)
  | KeyRight => vneg (norm (basis_side s))
  | KeyUp => norm (rolled_up keys s)
  | KeyDown => vneg (norm (rolled_up keys s))
  | _ => vzero
  end.

(** [k] is the one arrow key that is held. *)
Definition single_arrow (k : move_key) (keys : list string) : Prop :=
  In k arrow_keys
  /\ key_in (key_name k) keys = true
  /\ forall k', In k' arrow_keys -> k' <> k -> key_in (key_name k') keys = false.

(** No pan key is held. *)
Definition no_pan (keys : list string) : Prop :=
  forall k, In k pan_keys -> key_in (key_name k) keys = false.

(** A pose the toolkit accepts: the up vector is not along the camera axis
    (so neither vector is zero). *)
Definition well_posed (s : canvas) : Prop :=
  cross (camera_up s) (camera_axis s) <> vzero.


(** The keys the handler tests. *)
Definition handled_keys : list string :=
  ["ctrl"; "w"; "s"; "a"; "d"; " "; "shift"; "q"; "e";
   "left"; "right"; "up"; "down"]%string.

(** The angle of the roll a held-key set asks for: 'q' turns by minus one
    degree, 'e' by plus one degree. *)
Definition roll_angle (keys : list string) : R :=
  if key_in "q" keys then - radians rot_amount else radians rot_amount.

(** Two scenes agree on everything but the camera and the autoscale
    flag. *)
Definition same_settings (s s' : canvas) : Prop :=
  background s' = background s
  /\ width s' = width s
  /\ height s' = height s
  /\ userpan s' = userpan s
  /\ userzoom s' = userzoom s
  /\ userspin s' = userspin s
  /\ title s' = title s
  /\ caption s' = caption s
  /\ widgets s' = widgets s
  /\ bound s' = bound s.

(** ** Algebra of the vector operations *)

Lemma vector_eq (a b : vector) :
  vx a = vx b -> vy a = vy b -> vz a = vz b -> a = b.
Proof.
  destruct a, b; simpl; intros -> -> ->; reflexivity.
Qed.

(** Equalities of vectors that hold coordinate by coordinate in any ring. *)
Ltac vec_ring := apply vector_eq; simpl; ring.

Section VectorAlgebra.

Implicit Types a b c v u : vector.




Lemma vsub_as_add a b : vsub a b = vadd a (vneg b).
Proof. vec_ring. Qed.

Lemma dot_nonneg a : 0 <= dot a a.
Proof.
  unfold dot.
  pose proof (Rle_0_sqr (vx a)); pose proof (Rle_0_sqr (vy a));
    pose proof (Rle_0_sqr (vz a)).
  unfold Rsqr in *; lra.
Qed.

Lemma mag_nonneg a : 0 <= mag a.
Proof. apply sqrt_pos. Qed.

Lemma mag_sqr a : mag a * mag a = dot a a.
Proof. apply sqrt_sqrt, dot_nonneg. Qed.

Lemma dot_zero_inv a : dot a a = 0 -> a = vzero.
Proof.
  unfold dot; intros H.
  pose proof (Rle_0_sqr (vx a)) as Hx; pose proof (Rle_0_sqr (vy a)) as Hy;
    pose proof (Rle_0_sqr (vz a)) as Hz.
  unfold Rsqr in *.
  assert (vx a * vx a = 0) as Ex by lra.
  assert (vy a * vy a = 0) as Ey by lra.
  assert (vz a * vz a = 0) as Ez by lra.
  apply Rsqr_0_uniq in Ex, Ey, Ez.
  apply vector_eq; simpl; assumption.
Qed.

Lemma mag_zero_inv a : mag a = 0 -> a = vzero.
Proof.
  intros H; apply dot_zero_inv.
  rewrite <- mag_sqr, H; ring.
Qed.

Lemma mag_vzero : mag vzero = 0.
Proof.
  unfold mag, dot; simpl.
  replace (0 * 0 + 0 * 0 + 0 * 0) with 0 by ring.
  apply sqrt_0.
Qed.

Lemma mag_pos a : a <> vzero -> 0 < mag a.
Proof.
  intros H. destruct (mag_nonneg a) as [Hlt | Heq]; [exact Hlt |].
  exfalso; apply H, mag_zero_inv; symmetry; exact Heq.
Qed.

Lemma norm_vzero : norm vzero = vzero.
Proof.
  unfold norm. destruct (Req_dec_T (mag vzero) 0) as [_ | H]; [reflexivity |].
  exfalso; apply H, mag_vzero.
Qed.

Lemma norm_nonzero a : a <> vzero -> norm a = vdiv a (mag a).
Proof.
  intros H. unfold norm.
  destruct (Req_dec_T (mag a) 0) as [E | _]; [| reflexivity].
  exfalso; apply H, mag_zero_inv, E.
Qed.

Lemma dot_norm a : a <> vzero -> dot (norm a) (norm a) = 1.
Proof.
  intros H. rewrite (norm_nonzero a H).
  pose proof (mag_pos a H) as Hp.
  unfold dot, vdiv; simpl.
  replace (vx a / mag a * (vx a / mag a) + vy a / mag a * (vy a / mag a)
           + vz a / mag a * (vz a / mag a))
    with (dot a a / (mag a * mag a)) by (unfold dot; field; lra).
  rewrite mag_sqr. field.
  rewrite <- mag_sqr. nra.
Qed.

Lemma mag_norm a : a <> vzero -> mag (norm a) = 1.
Proof.
  intros H. unfold mag. rewrite (dot_norm a H). apply sqrt_1.
Qed.

Lemma vmul_norm_mag a : vmul (norm a) (mag a) = a.
Proof.
  unfold norm. destruct (Req_dec_T (mag a) 0) as [E | N].
  - rewrite E. rewrite (mag_zero_inv a E). vec_ring.
  - apply vector_eq; simpl; field; exact N.
Qed.

Lemma norm_idem a : norm (norm a) = norm a.
Proof.
  destruct (Req_dec_T (mag a) 0) as [E | N].
  - rewrite (mag_zero_inv a E), !norm_vzero. reflexivity.
  - assert (a <> vzero) as Ha by (intros ->; apply N, mag_vzero).
    assert (norm a <> vzero) as Hn.
    { intros E. pose proof (mag_norm a Ha) as M. rewrite E, mag_vzero in M. lra. }
    rewrite (norm_nonzero (norm a) Hn), (mag_norm a Ha).
    apply vector_eq; simpl; field.
Qed.

End VectorAlgebra.

(** ** The camera attributes of the scene *)

Section CameraAttributes.

Variable s : canvas.
Variable v : vector.

Lemma camera_axis_set_camera_axis : camera_axis (set_camera_axis v s) = v.
Proof.
  unfold camera_axis, set_camera_axis; simpl.
  rewrite norm_idem. apply vmul_norm_mag.
Qed.

Lemma center_set_camera_axis :
  center (set_camera_axis v s) = vadd (camera_pos s) v.
Proof. reflexivity. Qed.

Lemma camera_pos_set_camera_axis :
  camera_pos (set_camera_axis v s) = camera_pos s.
Proof.
  unfold camera_pos at 1.
  rewrite camera_axis_set_camera_axis, center_set_camera_axis.
  vec_ring.
Qed.

Lemma up_set_camera_axis : up (set_camera_axis v s) = up s.
Proof. reflexivity. Qed.

Lemma camera_axis_set_camera_pos :
  camera_axis (set_camera_pos v s) = camera_axis s.
Proof. reflexivity. Qed.

Lemma center_set_camera_pos :
  center (set_camera_pos v s) = vadd v (camera_axis s).
Proof. reflexivity. Qed.

Lemma camera_pos_set_camera_pos : camera_pos (set_camera_pos v s) = v.
Proof.
  unfold camera_pos.
  rewrite camera_axis_set_camera_pos, center_set_camera_pos.
  vec_ring.
Qed.

Lemma up_set_camera_pos : up (set_camera_pos v s) = up s.
Proof. reflexivity. Qed.

Lemma camera_axis_set_up : camera_axis (set_up v s) = camera_axis s.
Proof. reflexivity. Qed.

Lemma camera_pos_set_up : camera_pos (set_up v s) = camera_pos s.
Proof. reflexivity. Qed.

Lemma center_set_up : center (set_up v s) = center s.
Proof. reflexivity. Qed.

(** The centre is always the tip of the camera axis. *)
Lemma center_is_pos_plus_axis : center s = vadd (camera_pos s) (camera_axis s).
Proof. unfold camera_pos. vec_ring. Qed.

Lemma focus_distance_is_axis_mag : focus_distance s = mag (camera_axis s).
Proof.
  unfold focus_distance, camera_pos. f_equal. vec_ring.
Qed.

End CameraAttributes.

(** ** Held keys *)

Lemma key_in_In (k : string) (keys : list string) :
  key_in k keys = true <-> In k keys.
Proof.
  unfold key_in. rewrite existsb_exists. split.
  - intros [k' [Hin Heq]]. apply String.eqb_eq in Heq. subst. exact Hin.
  - intros Hin. exists k. split; [exact Hin | apply String.eqb_refl].
Qed.

Lemma key_in_not_In (k : string) (keys : list string) :
  key_in k keys = false <-> ~ In k keys.
Proof.
  rewrite <- key_in_In. destruct (key_in k keys); split; congruence.
Qed.


(** ** The scene after [reset_camera] and after [convert_grid_to_z_up] *)

Lemma reset_camera_pose (s : canvas) :
  camera_pos (reset_camera s) = Vector 10 10 10
  /\ camera_axis (reset_camera s) = Vector (-10) (-10) (-10)
  /\ up (reset_camera s) = z_axis_vector
  /\ center (reset_camera s) = vzero.
Proof.
  unfold reset_camera.
  rewrite camera_pos_set_camera_axis, camera_axis_set_camera_axis,
    up_set_camera_axis, center_set_camera_axis.
  rewrite !camera_pos_set_camera_pos, up_set_camera_pos.
  repeat split; vec_ring.
Qed.

Lemma convert_grid_to_z_up_pose (s : canvas) :
  camera_pos (convert_grid_to_z_up s) = Vector 10 10 10
  /\ camera_axis (convert_grid_to_z_up s) = Vector (-10) (-10) (-10)
  /\ up (convert_grid_to_z_up s) = z_axis_vector.
Proof.
  unfold convert_grid_to_z_up.
  rewrite camera_pos_set_camera_axis, camera_axis_set_camera_axis,
    up_set_camera_axis.
  rewrite !camera_pos_set_camera_pos, up_set_camera_pos.
  repeat split; vec_ring.
Qed.

Lemma home_pose :
  camera_pos home = Vector 10 10 10
  /\ camera_axis home = Vector (-10) (-10) (-10)
  /\ up home = Vector 0 0 1
  /\ center home = vzero.
Proof. apply reset_camera_pose. Qed.

(** ** The three blocks of the handler *)

Section Blocks.

Variable keys : list string.

(** Panning adds one term per pan key. *)
Lemma panning_sum (a sd u p : vector) :
  panning keys a sd u p =
  vadd p
    (vadd (if key_in "w" keys then vmul a pan_amount else vzero)
    (vadd (if key_in "s" keys then vneg (vmul a pan_amount) else vzero)
    (vadd (if key_in "a" keys then vmul sd pan_amount else vzero)
    (vadd (if key_in "d" keys then vneg (vmul sd pan_amount) else vzero)
    (vadd (if key_in " " keys then vmul u pan_amount else vzero)
          (if key_in "shift" keys then vneg (vmul u pan_amount) else vzero)))))).
Proof.
  unfold panning. generalize pan_amount; intros k.
  destruct (key_in "w" keys), (key_in "s" keys), (key_in "a" keys),
    (key_in "d" keys), (key_in " " keys), (key_in "shift" keys); vec_ring.
Qed.

(** The vector that the roll block returns does not depend on the scene. *)
Lemma camera_roll_fst (a cu : vector) (sc sc' : canvas) :
  fst (camera_roll keys a cu sc) = fst (camera_roll keys a cu sc').
Proof.
  unfold camera_roll.
  destruct (key_in "q" keys), (key_in "e" keys); reflexivity.
Qed.

(** The roll block writes the up vector only, and only for one roll key. *)
Lemma camera_roll_snd (a cu : vector) (sc : canvas) :
  snd (camera_roll keys a cu sc) =
  if xorb (key_in "q" keys) (key_in "e" keys)
  then set_up (fst (camera_roll keys a cu sc)) sc
  else sc.
Proof.
  unfold camera_roll.
  destruct (key_in "q" keys), (key_in "e" keys); reflexivity.
Qed.

Lemma camera_roll_fst_value (a cu : vector) (sc : canvas) :
  fst (camera_roll keys a cu sc) =
  if key_in "q" keys && negb (key_in "e" keys)
  then set_mag (mag a) (rotate (- radians rot_amount) a cu)
  else if key_in "e" keys && negb (key_in "q" keys)
  then set_mag (mag a) (rotate (radians rot_amount) a cu)
  else cu.
Proof.
  unfold camera_roll.
  destruct (key_in "q" keys), (key_in "e" keys); reflexivity.
Qed.

(** The rotation block adds one term per arrow key that acts. *)
Lemma camera_rotation_fst (f sd u : vector) (d : R) (p a : vector) :
  fst (camera_rotation keys f sd u d p a) =
  vadd p
    (vadd (if key_in "left" keys && negb (key_in "right" keys)
           then vmul (norm sd) (move_dist d) else vzero)
    (vadd (if key_in "right" keys && negb (key_in "left" keys)
           then vneg (vmul (norm sd) (move_dist d)) else vzero)
    (vadd (if key_in "up" keys && negb (key_in "down" keys)
           then vmul (norm u) (move_dist d) else vzero)
          (if key_in "down" keys && negb (key_in "up" keys)
           then vneg (vmul (norm u) (move_dist d)) else vzero)))).
Proof.
  unfold camera_rotation. generalize (move_dist d); intros m.
  destruct (key_in "left" keys), (key_in "right" keys),
    (key_in "up" keys), (key_in "down" keys); simpl; vec_ring.
Qed.

(** After an orbit step the axis is the negated offset of the camera from
    the focus; without one it is left alone. *)
Lemma camera_rotation_snd (f sd u : vector) (d : R) (p a : vector) :
  snd (camera_rotation keys f sd u d p a) =
  if orbit_taken keys
  then vneg (vsub (fst (camera_rotation keys f sd u d p a)) f)
  else a.
Proof.
  unfold camera_rotation, orbit_taken. generalize (move_dist d); intros m.
  destruct (key_in "left" keys), (key_in "right" keys),
    (key_in "up" keys), (key_in "down" keys); reflexivity.
Qed.

End Blocks.

(** ** What the handler leaves in the scene *)

Section HandlerResult.

Variable keys : list string.
Variable s : canvas.
Hypothesis no_ctrl : key_in "ctrl" keys = false.

Lemma handle_unfold :
  handle_keyboard_inputs keys s =
  set_camera_axis (snd (rotated keys s))
    (set_camera_pos (fst (rotated keys s))
       (snd (camera_roll keys (camera_axis s) (basis_up s)
               (set_camera_pos (panned keys s) s)))).
Proof.
  unfold handle_keyboard_inputs. rewrite no_ctrl.
  unfold rotated, rolled_up.
  rewrite (camera_roll_fst keys (camera_axis s) (basis_up s) s
             (set_camera_pos (panned keys s) s)).
  fold (basis_side s). fold (basis_up s).
  change (panning keys (camera_axis s) (basis_side s) (basis_up s) (camera_pos s))
    with (panned keys s).
  destruct (camera_roll keys (camera_axis s) (basis_up s)
              (set_camera_pos (panned keys s) s)) as [cu sc].
  simpl fst.
  destruct (camera_rotation keys (center s) (basis_side s) cu
              (mag (camera_axis s)) (panned keys s) (camera_axis s)) as [p a].
  reflexivity.
Qed.

Lemma handle_camera_pos :
  camera_pos (handle_keyboard_inputs keys s) = fst (rotated keys s).
Proof.
  rewrite handle_unfold, camera_pos_set_camera_axis.
  apply camera_pos_set_camera_pos.
Qed.

Lemma handle_camera_axis :
  camera_axis (handle_keyboard_inputs keys s) = snd (rotated keys s).
Proof.
  rewrite handle_unfold. apply camera_axis_set_camera_axis.
Qed.

Lemma handle_center :
  center (handle_keyboard_inputs keys s) =
  vadd (fst (rotated keys s)) (snd (rotated keys s)).
Proof.
  rewrite center_is_pos_plus_axis, handle_camera_pos, handle_camera_axis.
  reflexivity.
Qed.

Lemma handle_up :
  up (handle_keyboard_inputs keys s) =
  if xorb (key_in "q" keys) (key_in "e" keys) then rolled_up keys s else up s.
Proof.
  rewrite handle_unfold, up_set_camera_axis, up_set_camera_pos.
  rewrite camera_roll_snd.
  rewrite (camera_roll_fst keys (camera_axis s) (basis_up s)
             (set_camera_pos (panned keys s) s) s).
  fold (rolled_up keys s).
  destruct (xorb (key_in "q" keys) (key_in "e" keys)); reflexivity.
Qed.

End HandlerResult.

(** ** Evaluating the handler on a given list of held keys *)

Ltac eval_keys :=
  repeat match goal with
  | |- context [key_in ?k ?l] =>
      let b := eval vm_compute in (key_in k l) in
      change (key_in k l) with b
  end;
  cbn [andb orb negb xorb].

Lemma vector_neq_x (a b : vector) : vx a <> vx b -> a <> b.
Proof. intros H E. apply H. rewrite E. reflexivity. Qed.

(** ** The free-spin modifier *)

(** C1: when 'ctrl' is among the held keys, one call of
    [handle_keyboard_inputs] leaves the camera position, the camera axis and
    the up vector as they were, whatever other keys are held. *)
Theorem ctrl_freezes_camera (keys : list string) (s : canvas) :
  In "ctrl"%string keys ->
  camera_pos (handle_keyboard_inputs keys s) = camera_pos s
  /\ camera_axis (handle_keyboard_inputs keys s) = camera_axis s
  /\ up (handle_keyboard_inputs keys s) = up s.
Proof.
  intros Hin. apply key_in_In in Hin.
  unfold handle_keyboard_inputs. rewrite Hin. repeat split.
Qed.

Lemma ctrl_freezes_camera_witness :
  In "ctrl"%string ["w"; "ctrl"; "left"; "q"]%string
  /\ camera_pos (handle_keyboard_inputs ["w"; "ctrl"; "left"; "q"]%string home)
     = camera_pos home
  /\ camera_axis (handle_keyboard_inputs ["w"; "ctrl"; "left"; "q"]%string home)
     = camera_axis home
  /\ up (handle_keyboard_inputs ["w"; "ctrl"; "left"; "q"]%string home) = up home.
Proof.
  assert (In "ctrl"%string ["w"; "ctrl"; "left"; "q"]%string) as Hin
    by (simpl; auto).
  split; [exact Hin |].
  exact (ctrl_freezes_camera ["w"; "ctrl"; "left"; "q"]%string home Hin).
Defined.

(** ** Reset *)

(** C7: whatever the scene was, after [reset_camera] the camera position is
    (10, 10, 10), the camera axis is its negation (-10, -10, -10) and the up
    vector of the scene is the unit vector of the z axis. *)
Theorem reset_camera_restores_defaults (s : canvas) :
  camera_pos (reset_camera s) = Vector 10 10 10
  /\ camera_axis (reset_camera s) = vneg (Vector 10 10 10)
  /\ camera_axis (reset_camera s) = Vector (-10) (-10) (-10)
  /\ up (reset_camera s) = Vector 0 0 1.
Proof.
  destruct (reset_camera_pose s) as (Hp & Ha & Hu & _).
  split; [exact Hp |]. split; [rewrite Ha; vec_ring |].
  split; [exact Ha | exact Hu].
Qed.

(** ** Initialisation *)

(** C8: for every configuration, [init_canvas] switches the native pan
    control off ([userpan] false), keeps native zoom and spin on ([userzoom]
    and [userspin] true), leaves the camera at (10, 10, 10), that is at the
    same distance from the origin along each of the three axes, and returns a
    grid handle on which [set_visibility(False)] has been called exactly when
    the argument [grid] is false (and on which no visibility call has been
    made otherwise). *)
Theorem init_canvas_controls_and_grid (height width : Z)
    (title caption : string) (grid : bool) (scene : canvas) :
  let result := init_canvas height width title caption grid scene in
  userpan (fst result) = false
  /\ userzoom (fst result) = true
  /\ userspin (fst result) = true
  /\ camera_pos (fst result) = Vector 10 10 10
  /\ visibility_calls (snd result) = (if grid then [] else [false])
  /\ (In false (visibility_calls (snd result)) <-> grid = false).
Proof.
  unfold init_canvas.
  set (s1 := apply_settings height width title caption scene).
  destruct (setup_ui_controls s1) as [s2 ui] eqn:Eui.
  assert (userpan s2 = false /\ userzoom s2 = true /\ userspin s2 = true)
    as (Hp & Hz & Hs).
  { unfold setup_ui_controls in Eui. inversion Eui; subst s2. repeat split. }
  cbn zeta.
  destruct (convert_grid_to_z_up_pose s2) as (Hpos & _).
  repeat split.
  - exact Hp.
  - exact Hz.
  - exact Hs.
  - exact Hpos.
  - destruct grid; reflexivity.
  - destruct grid; simpl; intros H; [contradiction | reflexivity].
  - destruct grid; simpl; intros H; [discriminate | left; reflexivity].
Qed.

(** ** The reference-frame gizmo *)



(** ** Panning *)

Lemma mag_vmul_nonneg (v : vector) (k : R) :
  0 <= k -> mag (vmul v k) = k * mag v.
Proof.
  intros Hk. unfold mag.
  replace (dot (vmul v k) (vmul v k)) with (k * k * dot v v)
    by (unfold dot, vmul; simpl; ring).
  rewrite sqrt_mult_alt by nra.
  replace (k * k) with (Rsqr k) by reflexivity.
  rewrite sqrt_Rsqr by exact Hk. reflexivity.
Qed.

Lemma pan_amount_nonneg : 0 <= pan_amount.
Proof. unfold pan_amount. lra. Qed.

(** The position after the call: panning terms, then orbit terms. *)
Lemma handle_camera_pos_sum (keys : list string) (s : canvas) :
  key_in "ctrl" keys = false ->
  camera_pos (handle_keyboard_inputs keys s) =
  vadd (vadd (camera_pos s)
    (vadd (key_offset keys s KeyW) (vadd (key_offset keys s KeyS)
    (vadd (key_offset keys s KeyA) (vadd (key_offset keys s KeyD)
    (vadd (key_offset keys s KeySpace) (key_offset keys s KeyShift)))))))
    (vadd (key_offset keys s KeyLeft) (vadd (key_offset keys s KeyRight)
    (vadd (key_offset keys s KeyUp) (key_offset keys s KeyDown)))).
Proof.
  intros Hc. rewrite (handle_camera_pos keys s Hc).
  unfold rotated. rewrite camera_rotation_fst.
  unfold panned. rewrite panning_sum.
  reflexivity.
Qed.

(** C3, as the code has it: without 'ctrl', the handler adds to the camera
    position, for each held pan key, 0.02 times the corresponding basis
    vector of the camera (plus for 'w', 'a' and space, minus for 's', 'd' and
    'shift'), the terms of simultaneously held keys adding up, next to the
    orbit terms of the arrow keys; the basis vectors are not unit vectors, so
    the length of a pan step is 0.02 times the length of the basis vector,
    which for the forward vector is the camera-to-focus distance. *)
Theorem panning_adds_scaled_basis_vectors (keys : list string) (s : canvas) :
  ~ In "ctrl"%string keys ->
  let pan (k : string) (v : vector) :=
    if key_in k keys then vmul v 0.02 else vzero in
  let orbit :=
    vadd (key_offset keys s KeyLeft) (vadd (key_offset keys s KeyRight)
    (vadd (key_offset keys s KeyUp) (key_offset keys s KeyDown))) in
  camera_pos (handle_keyboard_inputs keys s) =
    vadd (vadd (camera_pos s)
      (vadd (vsub (pan "w"%string (basis_forward s))
                  (pan "s"%string (basis_forward s)))
      (vadd (vsub (pan "a"%string (basis_side s))
                  (pan "d"%string (basis_side s)))
            (vsub (pan " "%string (basis_up s))
                  (pan "shift"%string (basis_up s))))))
      orbit
  /\ mag (vmul (basis_forward s) 0.02) = 0.02 * focus_distance s
  /\ mag (vmul (basis_side s) 0.02) = 0.02 * mag (basis_side s)
  /\ mag (vmul (basis_up s) 0.02) = 0.02 * mag (basis_up s).
Proof.
  intros Hc. apply key_in_not_In in Hc. cbn zeta.
  split; [| repeat split].
  - rewrite (handle_camera_pos_sum keys s Hc).
    f_equal. unfold key_offset; cbn [key_name opposite].
    change pan_amount with 0.02.
    destruct (key_in "w" keys), (key_in "s" keys), (key_in "a" keys),
      (key_in "d" keys), (key_in " " keys), (key_in "shift" keys);
      generalize (basis_forward s) (basis_side s) (basis_up s) (camera_pos s);
      intros; vec_ring.
  - rewrite focus_distance_is_axis_mag. apply mag_vmul_nonneg. lra.
  - apply mag_vmul_nonneg. lra.
  - apply mag_vmul_nonneg. lra.
Qed.

Lemma panning_adds_scaled_basis_vectors_witness :
  ~ In "ctrl"%string ["w"; "d"]%string
  /\ camera_pos (handle_keyboard_inputs ["w"; "d"]%string home) =
     vadd (vadd (camera_pos home)
       (vadd (vsub (vmul (basis_forward home) 0.02) vzero)
       (vadd (vsub vzero (vmul (basis_side home) 0.02))
             (vsub vzero vzero))))
       (vadd vzero (vadd vzero (vadd vzero vzero))).
Proof.
  assert (~ In "ctrl"%string ["w"; "d"]%string) as Hc.
  { simpl. intros [H | [H | H]]; try discriminate; exact H. }
  split; [exact Hc |].
  exact (proj1 (panning_adds_scaled_basis_vectors ["w"; "d"]%string home Hc)).
Defined.

(** C3 as stated fails: from the default pose, holding 'w' alone moves the
    camera by 0.02 times the camera axis (-10, -10, -10), a step whose
    length is not 0.02. *)
Lemma pan_step_length_is_not_fixed :
  vsub (camera_pos (handle_keyboard_inputs ["w"]%string home)) (camera_pos home)
    = vmul (Vector (-10) (-10) (-10)) 0.02
  /\ mag (vsub (camera_pos (handle_keyboard_inputs ["w"]%string home))
               (camera_pos home)) <> 0.02.
Proof.
  assert (vsub (camera_pos (handle_keyboard_inputs ["w"]%string home))
               (camera_pos home) = vmul (Vector (-10) (-10) (-10)) 0.02) as E.
  { rewrite (handle_camera_pos_sum ["w"]%string home eq_refl).
    unfold key_offset; cbn [key_name opposite]. eval_keys.
    unfold basis_forward. destruct home_pose as (_ & -> & _).
    change pan_amount with 0.02. vec_ring. }
  split; [exact E |].
  rewrite E. unfold mag. intros H.
  assert (0 <= dot (vmul (Vector (-10) (-10) (-10)) 0.02)
                   (vmul (Vector (-10) (-10) (-10)) 0.02)) as Hpos
    by apply dot_nonneg.
  pose proof (sqrt_sqrt _ Hpos) as Hs. rewrite H in Hs.
  unfold dot, vmul in Hs; simpl in Hs. lra.
Qed.

(** ** Order of the held keys *)

Section OffsetSums.

Variable f : move_key -> vector.



End OffsetSums.




(** ** The focus point *)

(** The centre after the call: it stays when an orbit step is taken and
    follows the pan displacement otherwise. *)
Lemma handle_center_value (keys : list string) (s : canvas) :
  key_in "ctrl" keys = false ->
  center (handle_keyboard_inputs keys s) =
  if orbit_taken keys then center s
  else vadd (center s) (vsub (panned keys s) (camera_pos s)).
Proof.
  intros Hc. rewrite (handle_center keys s Hc).
  unfold rotated. rewrite camera_rotation_snd.
  destruct (orbit_taken keys) eqn:Eo.
  - vec_ring.
  - rewrite camera_rotation_fst.
    unfold orbit_taken in Eo.
    destruct (key_in "left" keys), (key_in "right" keys),
      (key_in "up" keys), (key_in "down" keys); try discriminate Eo;
      cbn [andb negb];
      rewrite (center_is_pos_plus_axis s) at 1; vec_ring.
Qed.

(** C10, as the code has it: neither function assigns the centre of the
    scene, they write the camera position, the camera axis and the up
    vector only; since the toolkit keeps the centre at the tip of the camera
    axis, the centre after [handle_keyboard_inputs] is the old one when
    'ctrl' is held or an orbit step is taken, and otherwise the old one
    moved by the pan displacement of the camera, and after [reset_camera]
    it is the origin. *)
Theorem center_after_handler_and_reset (keys : list string) (s : canvas) :
  center (handle_keyboard_inputs keys s) =
    (if key_in "ctrl" keys || orbit_taken keys then center s
     else vadd (center s) (vsub (panned keys s) (camera_pos s)))
  /\ center (reset_camera s) = vzero.
Proof.
  split.
  - destruct (key_in "ctrl" keys) eqn:Hc.
    + unfold handle_keyboard_inputs. rewrite Hc. reflexivity.
    + apply (handle_center_value keys s Hc).
  - apply reset_camera_pose.
Qed.

(** C10 as stated fails: from the default pose, holding 'w' alone moves the
    centre of the scene away from the origin. *)
Lemma handler_moves_center :
  center home = vzero
  /\ center (handle_keyboard_inputs ["w"]%string home) <> center home.
Proof.
  destruct home_pose as (Hp & Ha & _ & Hcen).
  split; [exact Hcen |].
  rewrite (handle_center_value ["w"]%string home eq_refl).
  unfold orbit_taken. eval_keys.
  unfold panned. rewrite panning_sum. eval_keys.
  unfold basis_forward. rewrite Hcen, Ha, Hp.
  apply vector_neq_x. unfold pan_amount. simpl. lra.
Qed.

(** ** Dot and cross products *)

Section Products.

Implicit Types a b u v w : vector.

Lemma dot_comm a b : dot a b = dot b a.
Proof. unfold dot; ring. Qed.

Lemma dot_cross_l a b : dot (cross a b) a = 0.
Proof. unfold dot, cross; simpl; ring. Qed.

Lemma dot_cross_r a b : dot (cross a b) b = 0.
Proof. unfold dot, cross; simpl; ring. Qed.

Lemma dot_cross_cross a b :
  dot (cross a b) (cross a b) = dot a a * dot b b - dot a b * dot a b.
Proof. unfold dot, cross; simpl; ring. Qed.

Lemma cross_vzero_r a : cross a vzero = vzero.
Proof. vec_ring. Qed.

Lemma dot_vzero_l a : dot vzero a = 0.
Proof. unfold dot; simpl; ring. Qed.

Lemma dot_vmul_l a b (k : R) : dot (vmul a k) b = k * dot a b.
Proof. unfold dot, vmul; simpl; ring. Qed.

Lemma dot_vneg_l a b : dot (vneg a) b = - dot a b.
Proof. unfold dot, vneg; simpl; ring. Qed.

Lemma dot_vneg_vneg a : dot (vneg a) (vneg a) = dot a a.
Proof. unfold dot, vneg; simpl; ring. Qed.

Lemma mag_vneg a : mag (vneg a) = mag a.
Proof. unfold mag. rewrite dot_vneg_vneg. reflexivity. Qed.

Lemma dot_pos a : a <> vzero -> 0 < dot a a.
Proof.
  intros H. destruct (dot_nonneg a) as [Hlt | Heq]; [exact Hlt |].
  exfalso. apply H, dot_zero_inv. symmetry. exact Heq.
Qed.

(** Normalising keeps a vector orthogonal to what it was orthogonal to. *)
Lemma dot_norm_orth v w : dot v w = 0 -> dot (norm v) w = 0.
Proof.
  intros H. unfold norm.
  destruct (Req_dec_T (mag v) 0) as [_ | N].
  - apply dot_vzero_l.
  - replace (dot (vdiv v (mag v)) w) with (dot v w / mag v)
      by (unfold dot, vdiv; simpl; field; exact N).
    rewrite H. field. exact N.
Qed.

Lemma norm_vmul_pos v (k : R) : 0 < k -> norm (vmul v k) = norm v.
Proof.
  intros Hk.
  destruct (Req_dec_T (mag v) 0) as [E | N].
  - rewrite (mag_zero_inv v E).
    replace (vmul vzero k) with vzero by vec_ring. reflexivity.
  - assert (mag (vmul v k) = k * mag v) as Em
      by (apply mag_vmul_nonneg; lra).
    unfold norm. rewrite Em.
    destruct (Req_dec_T (k * mag v) 0) as [E | _].
    + exfalso. apply Rmult_integral in E. destruct E; [lra | contradiction].
    + destruct (Req_dec_T (mag v) 0) as [E | _]; [contradiction |].
      apply vector_eq; simpl; field; (split; [exact N | lra]).
Qed.

Lemma norm_nonzero_neq v : v <> vzero -> norm v <> vzero.
Proof.
  intros H E. pose proof (mag_norm v H) as M.
  rewrite E, mag_vzero in M. lra.
Qed.

(** A vector whose length is already [m] is not changed by [v.mag = m]. *)
Lemma set_mag_same v : set_mag (mag v) v = v.
Proof. apply vmul_norm_mag. Qed.

Lemma mag_set_mag v (m : R) : v <> vzero -> 0 <= m -> mag (set_mag m v) = m.
Proof.
  intros Hv Hm. unfold set_mag.
  rewrite mag_vmul_nonneg by exact Hm.
  rewrite (mag_norm v Hv). ring.
Qed.

End Products.

(** ** The rotation of a vector about an axis *)

Section Rotation.

Variables (angle : R) (a v : vector).
Hypothesis a_nonzero : a <> vzero.
Hypothesis orth : dot v a = 0.

Let u := norm a.

Lemma unit_axis : dot u u = 1.
Proof. apply dot_norm, a_nonzero. Qed.

Lemma unit_axis_orth : dot u v = 0.
Proof. apply dot_norm_orth. rewrite dot_comm. exact orth. Qed.

(** For a vector orthogonal to the axis the rotation is the combination of
    the vector and of its cross product with the unit axis. *)
Lemma rotate_orth :
  rotate angle a v = vadd (vmul v (cos angle)) (vmul (cross u v) (sin angle)).
Proof.
  pose proof unit_axis_orth as H. unfold dot in H.
  unfold rotate. fold u.
  apply vector_eq; cbn [vx vy vz vadd vmul cross].
  - transitivity (vx v * cos angle
                  + (vy u * vz v - vz u * vy v) * sin angle
                  + (1 - cos angle) * vx u
                    * (vx u * vx v + vy u * vy v + vz u * vz v)); [ring |].
    rewrite H. ring.
  - transitivity (vy v * cos angle
                  + (vz u * vx v - vx u * vz v) * sin angle
                  + (1 - cos angle) * vy u
                    * (vx u * vx v + vy u * vy v + vz u * vz v)); [ring |].
    rewrite H. ring.
  - transitivity (vz v * cos angle
                  + (vx u * vy v - vy u * vx v) * sin angle
                  + (1 - cos angle) * vz u
                    * (vx u * vx v + vy u * vy v + vz u * vz v)); [ring |].
    rewrite H. ring.
Qed.

Lemma cos2_sin2 : cos angle * cos angle + sin angle * sin angle = 1.
Proof.
  pose proof (sin2_cos2 angle) as H. unfold Rsqr in H. lra.
Qed.

(** The rotation keeps the length. *)
Lemma dot_rotate_rotate : dot (rotate angle a v) (rotate angle a v) = dot v v.
Proof.
  rewrite rotate_orth.
  transitivity (cos angle * cos angle * dot v v
                + sin angle * sin angle
                  * (dot u u * dot v v - dot u v * dot u v)).
  { unfold dot, vadd, vmul, cross; simpl; ring. }
  rewrite unit_axis, unit_axis_orth.
  transitivity ((cos angle * cos angle + sin angle * sin angle) * dot v v);
    [ring |].
  rewrite cos2_sin2. ring.
Qed.

Lemma mag_rotate : mag (rotate angle a v) = mag v.
Proof. unfold mag. rewrite dot_rotate_rotate. reflexivity. Qed.

(** The rotated vector stays orthogonal to the axis. *)
Lemma dot_rotate_axis : dot (rotate angle a v) a = 0.
Proof.
  rewrite rotate_orth.
  assert (a = vmul u (mag a)) as Ea by (symmetry; apply vmul_norm_mag).
  rewrite Ea at 1.
  transitivity (mag a * (cos angle * dot u v
                         + sin angle * dot (cross u v) u)).
  { unfold dot, vadd, vmul, cross; simpl; ring. }
  rewrite unit_axis_orth, dot_cross_l. ring.
Qed.

(** The angle between the vector and its image is [angle]. *)
Lemma dot_rotate : dot v (rotate angle a v) = dot v v * cos angle.
Proof.
  rewrite rotate_orth.
  unfold dot, vadd, vmul, cross; simpl; ring.
Qed.

(** The image is turned towards the side that the sign of [angle] gives. *)
Lemma cross_rotate :
  cross v (rotate angle a v) = vmul u (dot v v * sin angle).
Proof.
  rewrite rotate_orth.
  pose proof unit_axis_orth as H. unfold dot in H.
  apply vector_eq; unfold dot; cbn [vx vy vz vadd vmul cross].
  - transitivity (vx u * ((vx v * vx v + vy v * vy v + vz v * vz v) * sin angle)
                  - vx v * sin angle
                    * (vx u * vx v + vy u * vy v + vz u * vz v)); [ring |].
    rewrite H. ring.
  - transitivity (vy u * ((vx v * vx v + vy v * vy v + vz v * vz v) * sin angle)
                  - vy v * sin angle
                    * (vx u * vx v + vy u * vy v + vz u * vz v)); [ring |].
    rewrite H. ring.
  - transitivity (vz u * ((vx v * vx v + vy v * vy v + vz v * vz v) * sin angle)
                  - vz v * sin angle
                    * (vx u * vx v + vy u * vy v + vz u * vz v)); [ring |].
    rewrite H. ring.
Qed.

End Rotation.

(** ** The camera-relative basis of a well-posed scene *)

Section Basis.

Variable s : canvas.
Hypothesis wp : well_posed s.

Lemma axis_nonzero : camera_axis s <> vzero.
Proof.
  intros E. apply wp. rewrite E. apply cross_vzero_r.
Qed.

Lemma mag_axis_pos : 0 < mag (camera_axis s).
Proof. apply mag_pos, axis_nonzero. Qed.

Lemma side_nonzero : basis_side s <> vzero.
Proof. exact wp. Qed.

Lemma side_orth : dot (basis_side s) (camera_axis s) = 0.
Proof. unfold basis_side. apply dot_cross_r. Qed.

Lemma raw_up_nonzero : cross (camera_axis s) (basis_side s) <> vzero.
Proof.
  intros E.
  pose proof (dot_cross_cross (camera_axis s) (basis_side s)) as H.
  rewrite E, dot_vzero_l in H.
  rewrite (dot_comm (camera_axis s) (basis_side s)), side_orth in H.
  pose proof (dot_pos _ axis_nonzero). pose proof (dot_pos _ side_nonzero).
  nra.
Qed.

Lemma up_orth : dot (basis_up s) (camera_axis s) = 0.
Proof.
  unfold basis_up, set_mag. rewrite dot_vmul_l.
  rewrite (dot_norm_orth _ _ (dot_cross_l (camera_axis s) (basis_side s))).
  ring.
Qed.

Lemma mag_basis_up : mag (basis_up s) = mag (camera_axis s).
Proof.
  unfold basis_up. apply mag_set_mag.
  - exact raw_up_nonzero.
  - apply mag_nonneg.
Qed.

Lemma basis_up_nonzero : basis_up s <> vzero.
Proof.
  intros E. pose proof mag_basis_up as M. rewrite E, mag_vzero in M.
  pose proof mag_axis_pos. lra.
Qed.

End Basis.

(** ** The geometry of the roll *)

Section RollGeometry.

Variable s : canvas.
Hypothesis wp : well_posed s.
Variable angle : R.

Let a := camera_axis s.
Let cu := basis_up s.
Let rolled := set_mag (mag a) (rotate angle a cu).

Lemma mag_rotated_up : mag (rotate angle a cu) = mag a.
Proof.
  unfold a, cu.
  rewrite (mag_rotate angle _ _ (axis_nonzero s wp) (up_orth s)).
  apply (mag_basis_up s wp).
Qed.

(** Setting the magnitude after the rotation changes nothing. *)
Lemma rolled_is_rotated : rolled = rotate angle a cu.
Proof.
  unfold rolled. rewrite <- mag_rotated_up. apply set_mag_same.
Qed.

Lemma mag_rolled : mag rolled = mag a.
Proof. rewrite rolled_is_rotated. exact mag_rotated_up. Qed.

Lemma rolled_orth : dot rolled a = 0.
Proof.
  rewrite rolled_is_rotated. unfold a, cu.
  apply (dot_rotate_axis angle _ _ (up_orth s)).
Qed.

Lemma rolled_angle : dot cu rolled = mag cu * mag rolled * cos angle.
Proof.
  rewrite mag_rolled, rolled_is_rotated. unfold a, cu.
  rewrite (dot_rotate angle _ _ (up_orth s)).
  rewrite <- mag_sqr, (mag_basis_up s wp). ring.
Qed.

Lemma rolled_side : cross cu rolled = vmul a (mag a * sin angle).
Proof.
  rewrite rolled_is_rotated. unfold a, cu.
  rewrite (cross_rotate angle _ _ (up_orth s)).
  rewrite <- mag_sqr, (mag_basis_up s wp).
  rewrite <- (vmul_norm_mag (camera_axis s)) at 4.
  vec_ring.
Qed.

End RollGeometry.

(** The local [cam_up] after the roll block is the basis up vector or a
    rotation of it; in a well-posed scene it has the magnitude of the camera
    axis and is orthogonal to it. *)
Section RolledUp.

Variables (keys : list string) (s : canvas).
Hypothesis wp : well_posed s.

Lemma mag_rolled_up : mag (rolled_up keys s) = mag (camera_axis s).
Proof.
  unfold rolled_up. rewrite camera_roll_fst_value.
  destruct (key_in "q" keys && negb (key_in "e" keys));
    [apply (mag_rolled s wp) |].
  destruct (key_in "e" keys && negb (key_in "q" keys));
    [apply (mag_rolled s wp) | apply (mag_basis_up s wp)].
Qed.

Lemma rolled_up_orth : dot (rolled_up keys s) (camera_axis s) = 0.
Proof.
  unfold rolled_up. rewrite camera_roll_fst_value.
  destruct (key_in "q" keys && negb (key_in "e" keys));
    [apply (rolled_orth s wp) |].
  destruct (key_in "e" keys && negb (key_in "q" keys));
    [apply (rolled_orth s wp) | apply (up_orth s)].
Qed.

Lemma rolled_up_nonzero : rolled_up keys s <> vzero.
Proof.
  intros E. pose proof mag_rolled_up as M. rewrite E, mag_vzero in M.
  pose proof (mag_axis_pos s wp). lra.
Qed.

(** The directions of the orbit steps are unit vectors orthogonal to the
    camera axis. *)
Lemma orbit_dir_unit (k : move_key) :
  In k arrow_keys -> mag (orbit_dir keys k s) = 1.
Proof.
  intros [<- | [<- | [<- | [<- | []]]]]; unfold orbit_dir;
    rewrite ?mag_vneg; apply mag_norm;
    first [exact (side_nonzero s wp) | exact rolled_up_nonzero].
Qed.

Lemma orbit_dir_orth (k : move_key) :
  dot (orbit_dir keys k s) (camera_axis s) = 0.
Proof.
  destruct k; unfold orbit_dir; rewrite ?dot_vneg_l; try apply dot_vzero_l;
    rewrite dot_norm_orth;
    first [ring | exact (side_orth s) | exact rolled_up_orth].
Qed.

Lemma dot_orbit_dir (k : move_key) :
  In k arrow_keys -> dot (orbit_dir keys k s) (orbit_dir keys k s) = 1.
Proof.
  intros Hk. rewrite <- mag_sqr, (orbit_dir_unit k Hk). ring.
Qed.

End RolledUp.

(** ** The rotation step *)

Lemma PI_lower : 3.1415 < PI.
Proof.
  destruct (PI_2_3_7_ineq 1) as [H _].
  unfold sum_f_R0, tg_alt, PI_2_3_7_tg, Ratan_seq in H.
  simpl in H. lra.
Qed.

Lemma PI_upper : PI < 3.1416.
Proof.
  destruct (PI_2_3_7_ineq 2) as [_ H].
  unfold sum_f_R0, tg_alt, PI_2_3_7_tg, Ratan_seq in H.
  simpl in H. lra.
Qed.

Lemma radians_rot_amount : radians rot_amount = radians 1.
Proof. unfold radians, rot_amount. lra. Qed.

Lemma one_degree_bounds : 0.0174527 < radians 1 < 0.0174534.
Proof.
  unfold radians. pose proof PI_lower. pose proof PI_upper. lra.
Qed.

Lemma cos_one_degree_bounds :
  0.00015229 < 1 - cos (radians 1) < 0.00015232.
Proof.
  pose proof one_degree_bounds as [Hlo Hhi].
  set (a := radians 1) in *.
  destruct (pre_cos_bound a 0) as [Hl Hu]; [lra | lra |].
  unfold cos_approx, cos_term, sum_f_R0 in Hl, Hu. simpl in Hl, Hu.
  assert (0.0174527 * 0.0174527 < a * a) as Hsq_lo by nra.
  assert (a * a < 0.0174534 * 0.0174534) as Hsq_hi by nra.
  assert (a * a * (a * a) < 0.0174534 * 0.0174534 * (0.0174534 * 0.0174534))
    as H4 by nra.
  split; lra.
Qed.

(** The code's formula is the chord of the isosceles triangle. *)
Lemma move_dist_chord (d : R) :
  move_dist d = sqrt (2 * d ^ 2 - 2 * d ^ 2 * cos (radians 1)).
Proof.
  unfold move_dist. rewrite radians_rot_amount. f_equal. ring.
Qed.

Lemma move_dist_sqr (d : R) :
  move_dist d * move_dist d = 2 * (d * d) * (1 - cos (radians 1)).
Proof.
  rewrite move_dist_chord.
  pose proof cos_one_degree_bounds as [Hlo _].
  rewrite sqrt_sqrt; [ring |].
  replace (2 * d ^ 2 - 2 * d ^ 2 * cos (radians 1))
    with (2 * (d * d) * (1 - cos (radians 1))) by ring.
  assert (0 <= d * d) by nra. nra.
Qed.


Lemma move_dist_pos (d : R) : 0 < d -> 0 < move_dist d.
Proof.
  intros Hd. rewrite move_dist_chord. apply sqrt_lt_R0.
  pose proof cos_one_degree_bounds as [Hlo _].
  assert (0 < d * d) by nra.
  replace (2 * d ^ 2 - 2 * d ^ 2 * cos (radians 1))
    with (2 * (d * d) * (1 - cos (radians 1))) by ring.
  nra.
Qed.


(** ** One arrow key *)

Lemma single_arrow_tests (k : move_key) (keys : list string) :
  single_arrow k keys ->
  forall k', In k' arrow_keys ->
    key_in (key_name k') keys = String.eqb (key_name k') (key_name k).
Proof.
  intros (Hk & Hheld & Hoth) k' Hk'.
  destruct (String.eqb_spec (key_name k') (key_name k)) as [E | N].
  - rewrite E. exact Hheld.
  - apply Hoth; [exact Hk' |]. intros ->. apply N. reflexivity.
Qed.

Ltac in_arrows := unfold arrow_keys; simpl; tauto.

(** Replace the tests of the arrow keys by their values when [H] says which
    single arrow key is held. *)
Ltac arrow_tests H :=
  rewrite ?(single_arrow_tests _ _ H KeyLeft ltac:(in_arrows)),
          ?(single_arrow_tests _ _ H KeyRight ltac:(in_arrows)),
          ?(single_arrow_tests _ _ H KeyUp ltac:(in_arrows)),
          ?(single_arrow_tests _ _ H KeyDown ltac:(in_arrows));
  cbn [key_name];
  repeat match goal with
  | |- context [String.eqb ?x ?y] =>
      let b := eval vm_compute in (String.eqb x y) in
      change (String.eqb x y) with b
  end;
  cbn [andb orb negb xorb].

Section OneArrow.

Variables (k : move_key) (keys : list string) (s : canvas).
Hypothesis no_ctrl : key_in "ctrl" keys = false.
Hypothesis one : single_arrow k keys.

Lemma one_arrow_orbit_taken : orbit_taken keys = true.
Proof.
  unfold orbit_taken.
  change (key_in "left" keys) with (key_in (key_name KeyLeft) keys).
  change (key_in "right" keys) with (key_in (key_name KeyRight) keys).
  change (key_in "up" keys) with (key_in (key_name KeyUp) keys).
  change (key_in "down" keys) with (key_in (key_name KeyDown) keys).
  destruct one as (Hk & _).
  destruct Hk as [<- | [<- | [<- | [<- | []]]]]; arrow_tests one; reflexivity.
Qed.

(** The camera moves from the panned position by the rotation step along
    the direction of the key. *)
Lemma one_arrow_pos :
  camera_pos (handle_keyboard_inputs keys s) =
  vadd (panned keys s)
       (vmul (orbit_dir keys k s) (move_dist (mag (camera_axis s)))).
Proof.
  rewrite (handle_camera_pos keys s no_ctrl).
  unfold rotated. rewrite camera_rotation_fst.
  generalize (move_dist (mag (camera_axis s))); intros m.
  change (key_in "left" keys) with (key_in (key_name KeyLeft) keys).
  change (key_in "right" keys) with (key_in (key_name KeyRight) keys).
  change (key_in "up" keys) with (key_in (key_name KeyUp) keys).
  change (key_in "down" keys) with (key_in (key_name KeyDown) keys).
  destruct one as (Hk & _).
  destruct Hk as [<- | [<- | [<- | [<- | []]]]]; arrow_tests one;
    unfold orbit_dir; vec_ring.
Qed.

(** The axis is the negated offset of the new position from the focus. *)
Lemma one_arrow_axis :
  camera_axis (handle_keyboard_inputs keys s) =
  vneg (vsub (camera_pos (handle_keyboard_inputs keys s)) (center s)).
Proof.
  rewrite (handle_camera_axis keys s no_ctrl).
  rewrite (handle_camera_pos keys s no_ctrl).
  unfold rotated at 1. rewrite camera_rotation_snd.
  rewrite one_arrow_orbit_taken. reflexivity.
Qed.


Hypothesis wp : well_posed s.


Hypothesis stay : panned keys s = camera_pos s.

(** Without panning, the distance to the focus after the step is the
    hypotenuse over the old distance and the step. *)
Lemma one_arrow_distance :
  focus_distance (handle_keyboard_inputs keys s) =
  sqrt (focus_distance s * focus_distance s
        + move_dist (focus_distance s) * move_dist (focus_distance s)).
Proof.
  rewrite !focus_distance_is_axis_mag.
  rewrite one_arrow_axis, one_arrow_pos, stay.
  set (m := move_dist (mag (camera_axis s))).
  set (e := orbit_dir keys k s).
  replace (vneg (vsub (vadd (camera_pos s) (vmul e m)) (center s)))
    with (vsub (camera_axis s) (vmul e m))
    by (rewrite (center_is_pos_plus_axis s); vec_ring).
  unfold mag at 1. f_equal.
  transitivity (dot (camera_axis s) (camera_axis s)
                - 2 * m * dot e (camera_axis s) + m * m * dot e e).
  { unfold dot, vsub, vmul; simpl; ring. }
  unfold e.
  rewrite (orbit_dir_orth keys s wp k), (dot_orbit_dir keys s wp k (proj1 one)).
  rewrite mag_sqr. ring.
Qed.

Lemma one_arrow_distance_grows :
  focus_distance s < focus_distance (handle_keyboard_inputs keys s).
Proof.
  rewrite one_arrow_distance.
  assert (0 < focus_distance s) as Hd.
  { rewrite focus_distance_is_axis_mag. apply mag_axis_pos, wp. }
  pose proof (move_dist_pos _ Hd) as Hm.
  rewrite <- (sqrt_square (focus_distance s)) at 1 by lra.
  apply sqrt_lt_1_alt. nra.
Qed.

End OneArrow.

Ltac in_pan := unfold pan_keys; simpl; tauto.

(** Without a held pan key the panning block leaves the position alone. *)
Lemma no_pan_panned (keys : list string) (s : canvas) :
  no_pan keys -> panned keys s = camera_pos s.
Proof.
  intros H. unfold panned. rewrite panning_sum.
  assert (key_in (key_name KeyW) keys = false) as Hw by (apply H; in_pan).
  assert (key_in (key_name KeyS) keys = false) as Hs by (apply H; in_pan).
  assert (key_in (key_name KeyA) keys = false) as Ha by (apply H; in_pan).
  assert (key_in (key_name KeyD) keys = false) as Hd by (apply H; in_pan).
  assert (key_in (key_name KeySpace) keys = false) as Hsp by (apply H; in_pan).
  assert (key_in (key_name KeyShift) keys = false) as Hsh by (apply H; in_pan).
  cbn [key_name] in Hw, Hs, Ha, Hd, Hsp, Hsh.
  rewrite Hw, Hs, Ha, Hd, Hsp, Hsh.
  vec_ring.
Qed.

(** The held keys of the failing run: the left arrow alone. *)
Lemma left_alone :
  key_in "ctrl" ["left"]%string = false
  /\ single_arrow KeyLeft ["left"]%string
  /\ no_pan ["left"]%string.
Proof.
  split; [reflexivity |]. split.
  - split; [in_arrows |]. split; [reflexivity |].
    intros k' [<- | [<- | [<- | [<- | []]]]] N;
      try reflexivity; exfalso; apply N; reflexivity.
  - intros k [<- | [<- | [<- | [<- | [<- | [<- | []]]]]]]; reflexivity.
Qed.

(** The default pose is well posed. *)
Lemma home_well_posed : well_posed home.
Proof.
  unfold well_posed, camera_up.
  destruct home_pose as (_ & -> & -> & _).
  apply vector_neq_x. simpl. lra.
Qed.

Lemma home_focus_distance : focus_distance home * focus_distance home = 300.
Proof.
  rewrite focus_distance_is_axis_mag, mag_sqr.
  destruct home_pose as (_ & -> & _). unfold dot; simpl. lra.
Qed.

(** C2 fails on the code: from the default pose (camera at (10, 10, 10)
    looking at the origin), one call with the left arrow alone held leaves
    the camera farther from the focus than it was: the squared distance
    grows from 300 by the square of the rotation step, the distance from
    less than 17.321 to more than 17.323. *)
Theorem orbit_left_changes_focus_distance :
  focus_distance home * focus_distance home = 300
  /\ focus_distance (handle_keyboard_inputs ["left"]%string home)
     = sqrt (300 + move_dist (focus_distance home)
                   * move_dist (focus_distance home))
  /\ focus_distance home < 17.321
  /\ 17.323 < focus_distance (handle_keyboard_inputs ["left"]%string home).
Proof.
  destruct left_alone as (Hc & Hone & Hpan).
  pose proof (no_pan_panned _ home Hpan) as Hstay.
  pose proof home_focus_distance as Hd.
  assert (0 <= focus_distance home) as Hd0 by apply sqrt_pos.
  assert (focus_distance (handle_keyboard_inputs ["left"]%string home)
          = sqrt (300 + move_dist (focus_distance home)
                        * move_dist (focus_distance home))) as Hafter.
  { rewrite (one_arrow_distance KeyLeft _ home Hc Hone home_well_posed Hstay).
    rewrite Hd. reflexivity. }
  split; [exact Hd |]. split; [exact Hafter |]. split.
  - nra.
  - rewrite Hafter, move_dist_sqr.
    pose proof cos_one_degree_bounds as [Hlo _].
    rewrite <- (sqrt_square 17.323) at 1 by lra.
    apply sqrt_lt_1_alt. nra.
Qed.



(** ** Roll *)

(** The basis up vector is the part of the scene's up vector that is
    orthogonal to the camera axis, rescaled to the length of the axis. *)
Lemma basis_up_rejection (s : canvas) :
  basis_up s =
  set_mag (mag (camera_axis s))
    (vsub (vmul (up s) (dot (camera_axis s) (camera_axis s)))
          (vmul (camera_axis s) (dot (camera_axis s) (up s)))).
Proof.
  unfold basis_up, basis_side, camera_up. f_equal.
  unfold dot. vec_ring.
Qed.

(** No movement key held: the camera stays where it is. *)
Lemma handle_keeps_pos (keys : list string) (s : canvas) :
  key_in "ctrl" keys = false ->
  (forall k, In k movement_keys -> key_in (key_name k) keys = false) ->
  camera_pos (handle_keyboard_inputs keys s) = camera_pos s.
Proof.
  intros Hc Hnone.
  rewrite (handle_camera_pos_sum keys s Hc).
  assert (forall k, key_offset keys s k = vzero) as Hz.
  { intros k. assert (In k movement_keys) as Hin
      by (destruct k; unfold movement_keys; simpl; tauto).
    unfold key_offset. rewrite (Hnone k Hin).
    destruct k; reflexivity. }
  rewrite !Hz. vec_ring.
Qed.

(** The position is the same for two held-key sets that differ in the roll
    keys only, when no up or down orbit step is taken. *)
Lemma position_ignores_roll_keys (keys keys' : list string) (s : canvas) :
  key_in "ctrl" keys = false ->
  (forall k, In k handled_keys -> k <> "q"%string -> k <> "e"%string ->
     key_in k keys = key_in k keys') ->
  key_in "up" keys = key_in "down" keys ->
  camera_pos (handle_keyboard_inputs keys s)
  = camera_pos (handle_keyboard_inputs keys' s).
Proof.
  intros Hc T Hud. unfold handled_keys in T.
  assert (key_in "ctrl" keys' = false) as Hc'
    by (rewrite <- (T "ctrl"%string); [exact Hc | simpl; tauto | | ];
        discriminate).
  rewrite (handle_camera_pos_sum keys s Hc), (handle_camera_pos_sum keys' s Hc').
  unfold key_offset; cbn [key_name opposite].
  assert (key_in "up" keys' = key_in "down" keys') as Hud'.
  { rewrite <- (T "up"%string), <- (T "down"%string);
      [exact Hud | simpl; tauto | | | simpl; tauto | | ]; discriminate. }
  rewrite Hud, Hud'.
  rewrite (T "w"%string), (T "s"%string), (T "a"%string), (T "d"%string),
    (T " "%string), (T "shift"%string), (T "left"%string),
    (T "right"%string), (T "down"%string);
    try (simpl; tauto); try discriminate.
  destruct (key_in "down" keys'); reflexivity.
Qed.

(** C4, as the code has it: in one call without 'ctrl', the up vector of the
    scene is left alone when both roll keys or neither are held; when
    exactly one is held and the up vector is not along the camera axis, the
    up vector of the scene is replaced by the up vector of the camera basis
    (the part of the scene's up vector orthogonal to the camera axis, with
    the length of the axis) rotated about the camera axis by one degree, to
    the side the key gives: the new up vector has the magnitude of the
    camera axis, is orthogonal to it and makes an angle of one degree with
    the basis up vector.  The roll leaves the camera position alone as long
    as no up or down orbit step is taken in the same call: with no movement
    key held the position is the same after the call, and with 'up' and
    'down' both held or both released it is the position the call gives
    without the roll keys. *)
Theorem roll_rotates_up_by_one_degree (keys : list string) (s : canvas) :
  ~ In "ctrl"%string keys ->
  let a := camera_axis s in
  let cu := basis_up s in
  let s' := handle_keyboard_inputs keys s in
  (key_in "q" keys = key_in "e" keys -> up s' = up s)
  /\ (key_in "q" keys <> key_in "e" keys -> well_posed s ->
      let angle := if key_in "q" keys then - radians 1 else radians 1 in
      up s' = rotate angle a cu
      /\ cu = set_mag (mag a)
                (vsub (vmul (up s) (dot a a)) (vmul a (dot a (up s))))
      /\ mag cu = mag a
      /\ dot cu a = 0
      /\ mag (up s') = mag a
      /\ dot (up s') a = 0
      /\ dot cu (up s') = mag cu * mag (up s') * cos (radians 1)
      /\ cross cu (up s') = vmul a (mag a * sin angle))
  /\ ((forall k, In k movement_keys -> key_in (key_name k) keys = false) ->
      camera_pos s' = camera_pos s)
  /\ (forall keys' : list string,
        (forall k, In k handled_keys -> k <> "q"%string -> k <> "e"%string ->
           key_in k keys = key_in k keys') ->
        key_in "up" keys = key_in "down" keys ->
        camera_pos s' = camera_pos (handle_keyboard_inputs keys' s)).
Proof.
  intros Hc. apply key_in_not_In in Hc. cbn zeta.
  split; [| split; [| split]].
  - intros Hqe. rewrite (handle_up keys s Hc), Hqe, xorb_nilpotent.
    reflexivity.
  - intros Hqe Hwp.
    assert (up (handle_keyboard_inputs keys s) =
            set_mag (mag (camera_axis s))
              (rotate (if key_in "q" keys then - radians 1 else radians 1)
                 (camera_axis s) (basis_up s))) as Hup.
    { rewrite (handle_up keys s Hc). unfold rolled_up.
      rewrite camera_roll_fst_value, radians_rot_amount.
      destruct (key_in "q" keys), (key_in "e" keys);
        try (exfalso; apply Hqe; reflexivity); reflexivity. }
    rewrite Hup.
    set (angle := if key_in "q" keys then - radians 1 else radians 1).
    assert (cos angle = cos (radians 1)) as Hcos.
    { unfold angle. destruct (key_in "q" keys);
        [apply cos_neg | reflexivity]. }
    split; [apply (rolled_is_rotated s Hwp) |].
    split; [apply basis_up_rejection |].
    split; [apply (mag_basis_up s Hwp) |].
    split; [apply (up_orth s) |].
    split; [apply (mag_rolled s Hwp) |].
    split; [apply (rolled_orth s Hwp) |].
    split; [rewrite <- Hcos; apply (rolled_angle s Hwp) |].
    apply (rolled_side s Hwp).
  - apply (handle_keeps_pos keys s Hc).
  - intros keys' Hsame Hud.
    apply (position_ignores_roll_keys keys keys' s Hc Hsame Hud).
Qed.

Lemma roll_rotates_up_by_one_degree_witness :
  ~ In "ctrl"%string ["q"]%string
  /\ mag (up (handle_keyboard_inputs ["q"]%string home)) = mag (camera_axis home)
  /\ dot (basis_up home) (up (handle_keyboard_inputs ["q"]%string home)) =
     mag (basis_up home) * mag (up (handle_keyboard_inputs ["q"]%string home))
     * cos (radians 1)
  /\ camera_pos (handle_keyboard_inputs ["q"]%string home) = camera_pos home.
Proof.
  assert (~ In "ctrl"%string ["q"]%string) as Hc.
  { simpl. intros [H | H]; [discriminate | exact H]. }
  split; [exact Hc |].
  destruct (roll_rotates_up_by_one_degree ["q"]%string home Hc)
    as (_ & Hroll & Hpos & _).
  assert (key_in "q" ["q"]%string <> key_in "e" ["q"]%string) as Hqe
    by (vm_compute; discriminate).
  destruct (Hroll Hqe home_well_posed)
    as (_ & _ & _ & _ & Hmag & _ & Hang & _).
  split; [exact Hmag |]. split; [exact Hang |].
  apply Hpos. intros k _. destruct k; reflexivity.
Defined.

(** *** Where the roll differs from a rotation of the scene's up vector *)

(** A rotation about an axis keeps the component along the axis. *)
Lemma dot_rotate_axis_any (angle : R) (a v : vector) :
  a <> vzero -> dot (rotate angle a v) a = dot v a.
Proof.
  intros Ha.
  assert (forall w, dot w a = mag a * dot w (norm a)) as D.
  { intros w.
    replace (dot w a) with (dot w (vmul (norm a) (mag a)))
      by (rewrite vmul_norm_mag; reflexivity).
    unfold dot, vmul; simpl; ring. }
  rewrite (D (rotate angle a v)), (D v). f_equal.
  pose proof (dot_norm a Ha) as Hu.
  unfold rotate. set (u := norm a) in *.
  transitivity (dot v u * (cos angle + (1 - cos angle) * dot u u)
                + sin angle * dot (cross u v) u).
  { unfold dot, cross; simpl; ring. }
  rewrite Hu, dot_cross_l. ring.
Qed.

Lemma dot_set_mag (m : R) (w a : vector) :
  dot (set_mag m w) a * mag w = m * dot w a.
Proof.
  unfold set_mag, norm.
  destruct (Req_dec_T (mag w) 0) as [E | N].
  - rewrite E, (mag_zero_inv w E). unfold dot; simpl; ring.
  - unfold dot, vmul, vdiv; simpl; field; exact N.
Qed.

(** From the default pose the up vector after a roll is not the scene's up
    vector rotated about the camera axis and rescaled, whatever the angle:
    the first is orthogonal to the axis, the second is not. *)
Lemma home_roll_is_not_rotation_of_scene_up (angle : R) :
  up (handle_keyboard_inputs ["q"]%string home)
  <> set_mag (mag (camera_axis home))
             (rotate angle (camera_axis home) (up home)).
Proof.
  intros E.
  assert (dot (up (handle_keyboard_inputs ["q"]%string home))
              (camera_axis home) = 0) as Horth.
  { rewrite (handle_up ["q"]%string home eq_refl). eval_keys.
    apply (rolled_up_orth _ home home_well_posed). }
  rewrite E in Horth.
  pose proof (dot_set_mag (mag (camera_axis home))
                (rotate angle (camera_axis home) (up home))
                (camera_axis home)) as H.
  rewrite Horth in H.
  rewrite (dot_rotate_axis_any angle _ _ (axis_nonzero home home_well_posed))
    in H.
  pose proof (mag_axis_pos home home_well_posed) as Hm.
  destruct home_pose as (_ & Ha & Hu & _).
  rewrite Hu, Ha in H. unfold dot in H at 1. simpl in H.
  rewrite <- Ha in H. nra.
Qed.

Lemma vadd_vmul_cancel (p x y : vector) (m : R) :
  m <> 0 -> vadd p (vmul x m) = vadd p (vmul y m) -> x = y.
Proof.
  intros Hm E.
  pose proof (f_equal vx E) as Ex. pose proof (f_equal vy E) as Ey.
  pose proof (f_equal vz E) as Ez. simpl in Ex, Ey, Ez.
  apply vector_eq; apply (Rmult_eq_reg_r m); try exact Hm; lra.
Qed.

(** From the default pose a roll changes where an up orbit step goes. *)
Lemma home_roll_moves_up_orbit :
  camera_pos (handle_keyboard_inputs ["q"; "up"]%string home)
  <> camera_pos (handle_keyboard_inputs ["up"]%string home).
Proof.
  assert (single_arrow KeyUp ["q"; "up"]%string) as Hone1.
  { split; [simpl; tauto |]. split; [reflexivity |].
    intros k' [<- | [<- | [<- | [<- | []]]]] N;
      try reflexivity; exfalso; apply N; reflexivity. }
  assert (single_arrow KeyUp ["up"]%string) as Hone2.
  { split; [simpl; tauto |]. split; [reflexivity |].
    intros k' [<- | [<- | [<- | [<- | []]]]] N;
      try reflexivity; exfalso; apply N; reflexivity. }
  assert (no_pan ["q"; "up"]%string) as Hpan1
    by (intros k [<- | [<- | [<- | [<- | [<- | [<- | []]]]]]]; reflexivity).
  assert (no_pan ["up"]%string) as Hpan2
    by (intros k [<- | [<- | [<- | [<- | [<- | [<- | []]]]]]]; reflexivity).
  rewrite (one_arrow_pos KeyUp ["q"; "up"]%string home eq_refl Hone1).
  rewrite (one_arrow_pos KeyUp ["up"]%string home eq_refl Hone2).
  rewrite (no_pan_panned _ home Hpan1), (no_pan_panned _ home Hpan2).
  unfold orbit_dir.
  pose proof home_well_posed as Hwp.
  assert (rolled_up ["up"]%string home = basis_up home) as R2.
  { unfold rolled_up. rewrite camera_roll_fst_value. eval_keys. reflexivity. }
  assert (rolled_up ["q"; "up"]%string home
          = rotate (- radians rot_amount) (camera_axis home) (basis_up home))
    as R1.
  { unfold rolled_up. rewrite camera_roll_fst_value. eval_keys.
    apply (rolled_is_rotated home Hwp). }
  rewrite R1, R2.
  set (a := camera_axis home). set (cu := basis_up home).
  set (r := rotate (- radians rot_amount) a cu).
  intros E.
  assert (move_dist (mag a) <> 0) as Hm.
  { pose proof (move_dist_pos (mag a) (mag_axis_pos home Hwp)). lra. }
  apply (vadd_vmul_cancel _ _ _ _ Hm) in E.
  assert (mag r = mag cu) as Hmag
    by (apply (mag_rotate _ _ _ (axis_nonzero home Hwp) (up_orth home))).
  assert (r = cu) as Er.
  { rewrite <- (vmul_norm_mag r), <- (vmul_norm_mag cu), E, Hmag.
    reflexivity. }
  pose proof (dot_rotate (- radians rot_amount) a cu (up_orth home)) as Hd.
  fold r in Hd. rewrite Er in Hd.
  rewrite cos_neg, radians_rot_amount in Hd.
  pose proof cos_one_degree_bounds as [Hlo _].
  assert (0 < dot cu cu) as Hpos.
  { rewrite <- mag_sqr. unfold cu. rewrite (mag_basis_up home Hwp).
    pose proof (mag_axis_pos home Hwp) as Hp.
    set (m := mag (camera_axis home)) in *. nra. }
  set (d := dot cu cu) in *. set (c := cos (radians 1)) in *. nra.
Qed.

(** C4 as stated fails: from the default pose, holding 'q' alone does not
    turn the scene's up vector by one degree about the camera axis (neither
    way); it replaces it by a vector orthogonal to the axis; and the roll
    does change the camera position when the up arrow is held with it. *)
Lemma roll_is_not_a_rotation_of_scene_up :
  up (handle_keyboard_inputs ["q"]%string home)
    <> set_mag (mag (camera_axis home))
               (rotate (- radians 1) (camera_axis home) (up home))
  /\ up (handle_keyboard_inputs ["q"]%string home)
    <> set_mag (mag (camera_axis home))
               (rotate (radians 1) (camera_axis home) (up home))
  /\ dot (up (handle_keyboard_inputs ["q"]%string home)) (camera_axis home) = 0
  /\ dot (up home) (camera_axis home) = -10
  /\ camera_pos (handle_keyboard_inputs ["q"; "up"]%string home)
     <> camera_pos (handle_keyboard_inputs ["up"]%string home).
Proof.
  split; [apply home_roll_is_not_rotation_of_scene_up |].
  split; [apply home_roll_is_not_rotation_of_scene_up |].
  split.
  { rewrite (handle_up ["q"]%string home eq_refl). eval_keys.
    apply (rolled_up_orth _ home home_well_posed). }
  split; [| exact home_roll_moves_up_orbit].
  destruct home_pose as (_ & -> & -> & _). unfold dot; simpl. lra.
Qed.

(** * Further properties of the camera controller *)

(** ** Keys the handler does not test *)

(** Held keys other than the thirteen the handler tests have no effect: two
    held-key lists that agree on the tested keys give the same scene. *)
Theorem handler_ignores_other_keys (keys keys' : list string) (s : canvas) :
  (forall k, In k handled_keys -> key_in k keys = key_in k keys') ->
  handle_keyboard_inputs keys s = handle_keyboard_inputs keys' s.
Proof.
  intros H.
  assert (forall k, In k handled_keys -> key_in k keys = key_in k keys') as H'
    by exact H.
  unfold handled_keys in H'.
  unfold handle_keyboard_inputs, panning, camera_roll, camera_rotation.
  rewrite (H' "ctrl"%string), (H' "w"%string), (H' "s"%string),
    (H' "a"%string), (H' "d"%string), (H' " "%string), (H' "shift"%string),
    (H' "q"%string), (H' "e"%string), (H' "left"%string),
    (H' "right"%string), (H' "up"%string), (H' "down"%string)
    by (simpl; tauto).
  reflexivity.
Qed.

Lemma handler_ignores_other_keys_witness :
  (forall k, In k handled_keys ->
     key_in k ["x"; "w"; "W"; "tab"]%string = key_in k ["w"]%string)
  /\ handle_keyboard_inputs ["x"; "w"; "W"; "tab"]%string home
     = handle_keyboard_inputs ["w"]%string home.
Proof.
  assert (forall k, In k handled_keys ->
            key_in k ["x"; "w"; "W"; "tab"]%string = key_in k ["w"]%string) as H.
  { intros k Hin. unfold handled_keys in Hin. simpl in Hin.
    repeat (destruct Hin as [<- | Hin]; [reflexivity |]). contradiction. }
  split; [exact H |].
  exact (handler_ignores_other_keys _ _ home H).
Defined.

(** ** No key held *)

Lemma untested_keys_tests (keys : list string) :
  (forall k, In k handled_keys -> ~ In k keys) ->
  forall k, In k handled_keys -> key_in k keys = false.
Proof.
  intros H k Hin. apply key_in_not_In, H, Hin.
Qed.

Ltac in_handled := unfold handled_keys; simpl; tauto.

(** When none of the tested keys is held (in particular when no key is
    held), the call leaves the camera position, the camera axis, the up
    vector and the centre as they were. *)
Theorem idle_handler_keeps_pose (keys : list string) (s : canvas) :
  (forall k, In k handled_keys -> ~ In k keys) ->
  camera_pos (handle_keyboard_inputs keys s) = camera_pos s
  /\ camera_axis (handle_keyboard_inputs keys s) = camera_axis s
  /\ up (handle_keyboard_inputs keys s) = up s
  /\ center (handle_keyboard_inputs keys s) = center s.
Proof.
  intros H. pose proof (untested_keys_tests keys H) as T.
  assert (key_in "ctrl" keys = false) as Hc by (apply T; in_handled).
  assert (camera_pos (handle_keyboard_inputs keys s) = camera_pos s) as Hp.
  { apply (handle_keeps_pos keys s Hc).
    intros k _. apply T. destruct k; in_handled. }
  assert (camera_axis (handle_keyboard_inputs keys s) = camera_axis s) as Ha.
  { rewrite (handle_camera_axis keys s Hc). unfold rotated.
    rewrite camera_rotation_snd. unfold orbit_taken.
    rewrite (T "left"%string), (T "right"%string), (T "up"%string),
      (T "down"%string) by in_handled.
    reflexivity. }
  split; [exact Hp |]. split; [exact Ha |]. split.
  - rewrite (handle_up keys s Hc).
    rewrite (T "q"%string), (T "e"%string) by in_handled. reflexivity.
  - rewrite (center_is_pos_plus_axis (handle_keyboard_inputs keys s)).
    rewrite Hp, Ha. symmetry. apply center_is_pos_plus_axis.
Qed.

Lemma idle_handler_keeps_pose_witness :
  (forall k, In k handled_keys -> ~ In k (@nil string))
  /\ camera_pos (handle_keyboard_inputs [] home) = camera_pos home
  /\ camera_axis (handle_keyboard_inputs [] home) = camera_axis home
  /\ up (handle_keyboard_inputs [] home) = up home
  /\ center (handle_keyboard_inputs [] home) = center home.
Proof.
  assert (forall k, In k handled_keys -> ~ In k (@nil string)) as H
    by (intros k _ Hin; exact Hin).
  split; [exact H |].
  exact (idle_handler_keeps_pose [] home H).
Defined.

(** ** Opposite keys *)

(** Without an orbit step the panning block alone decides the position and
    the axis is not touched. *)
Lemma no_orbit_pos_axis (keys : list string) (s : canvas) :
  key_in "ctrl" keys = false ->
  orbit_taken keys = false ->
  camera_pos (handle_keyboard_inputs keys s) = panned keys s
  /\ camera_axis (handle_keyboard_inputs keys s) = camera_axis s.
Proof.
  intros Hc Ho. split.
  - rewrite (handle_camera_pos keys s Hc). unfold rotated.
    rewrite camera_rotation_fst. unfold orbit_taken in Ho.
    destruct (key_in "left" keys), (key_in "right" keys),
      (key_in "up" keys), (key_in "down" keys); try discriminate Ho;
      cbn [andb negb]; vec_ring.
  - rewrite (handle_camera_axis keys s Hc). unfold rotated.
    rewrite camera_rotation_snd, Ho. reflexivity.
Qed.

Lemma balanced_arrows_no_orbit (keys : list string) :
  key_in "left" keys = key_in "right" keys ->
  key_in "up" keys = key_in "down" keys ->
  orbit_taken keys = false.
Proof.
  intros Hl Hu. unfold orbit_taken. rewrite Hl, Hu.
  destruct (key_in "right" keys), (key_in "down" keys); reflexivity.
Qed.

(** The two keys of a pan pair cancel: when in each of the pairs 'w'/'s',
    'a'/'d' and space/'shift' both keys or neither are held, the panning
    block leaves the position alone, and so does the whole call when no
    orbit step is taken. *)
Theorem opposite_pan_keys_cancel (keys : list string) (s : canvas) :
  ~ In "ctrl"%string keys ->
  key_in "w" keys = key_in "s" keys ->
  key_in "a" keys = key_in "d" keys ->
  key_in " " keys = key_in "shift" keys ->
  panned keys s = camera_pos s
  /\ (orbit_taken keys = false ->
      camera_pos (handle_keyboard_inputs keys s) = camera_pos s).
Proof.
  intros Hc Hw Ha Hsp. apply key_in_not_In in Hc.
  assert (panned keys s = camera_pos s) as Hp.
  { unfold panned. rewrite panning_sum, Hw, Ha, Hsp.
    destruct (key_in "s" keys), (key_in "d" keys), (key_in "shift" keys);
      vec_ring. }
  split; [exact Hp |].
  intros Ho. rewrite <- Hp. apply (no_orbit_pos_axis keys s Hc Ho).
Qed.

Lemma opposite_pan_keys_cancel_witness :
  ~ In "ctrl"%string ["w"; "s"; "d"; "a"; "q"]%string
  /\ camera_pos (handle_keyboard_inputs ["w"; "s"; "d"; "a"; "q"]%string home)
     = camera_pos home.
Proof.
  assert (~ In "ctrl"%string ["w"; "s"; "d"; "a"; "q"]%string) as Hc.
  { simpl. intros H.
    repeat (destruct H as [H | H]; [discriminate |]). exact H. }
  split; [exact Hc |].
  exact (proj2 (opposite_pan_keys_cancel ["w"; "s"; "d"; "a"; "q"]%string home
                  Hc eq_refl eq_refl eq_refl) eq_refl).
Defined.

(** The two arrows of a pair exclude each other: when of left/right and of
    up/down both keys or neither are held, no orbit step is taken; the
    camera axis is what it was and the position is the one the pan keys
    give. *)
Theorem opposite_arrows_do_nothing (keys : list string) (s : canvas) :
  ~ In "ctrl"%string keys ->
  key_in "left" keys = key_in "right" keys ->
  key_in "up" keys = key_in "down" keys ->
  camera_axis (handle_keyboard_inputs keys s) = camera_axis s
  /\ camera_pos (handle_keyboard_inputs keys s) = panned keys s.
Proof.
  intros Hc Hl Hu. apply key_in_not_In in Hc.
  pose proof (balanced_arrows_no_orbit keys Hl Hu) as Ho.
  destruct (no_orbit_pos_axis keys s Hc Ho) as [Hp Ha].
  split; [exact Ha | exact Hp].
Qed.

Lemma opposite_arrows_do_nothing_witness :
  ~ In "ctrl"%string ["left"; "right"; "up"; "down"]%string
  /\ camera_axis
       (handle_keyboard_inputs ["left"; "right"; "up"; "down"]%string home)
     = camera_axis home
  /\ camera_pos
       (handle_keyboard_inputs ["left"; "right"; "up"; "down"]%string home)
     = panned ["left"; "right"; "up"; "down"]%string home.
Proof.
  assert (~ In "ctrl"%string ["left"; "right"; "up"; "down"]%string) as Hc.
  { simpl. intros H.
    repeat (destruct H as [H | H]; [discriminate |]). exact H. }
  split; [exact Hc |].
  exact (opposite_arrows_do_nothing _ home Hc eq_refl eq_refl).
Defined.

(** ** Orbit steps and the focus *)

(** Whenever an orbit step is taken, whatever other keys are held, the
    camera axis after the call is the negation of (new position - old
    centre): the camera looks at the point it looked at before, and that
    point is still the centre of the scene. *)
Theorem orbit_keeps_looking_at_focus (keys : list string) (s : canvas) :
  ~ In "ctrl"%string keys ->
  orbit_taken keys = true ->
  camera_axis (handle_keyboard_inputs keys s)
    = vneg (vsub (camera_pos (handle_keyboard_inputs keys s)) (center s))
  /\ vadd (camera_pos (handle_keyboard_inputs keys s))
          (camera_axis (handle_keyboard_inputs keys s)) = center s
  /\ center (handle_keyboard_inputs keys s) = center s.
Proof.
  intros Hc Ho. apply key_in_not_In in Hc.
  assert (camera_axis (handle_keyboard_inputs keys s)
          = vneg (vsub (camera_pos (handle_keyboard_inputs keys s)) (center s)))
    as Ha.
  { rewrite (handle_camera_axis keys s Hc), (handle_camera_pos keys s Hc).
    unfold rotated at 1. rewrite camera_rotation_snd, Ho. reflexivity. }
  split; [exact Ha |]. split.
  - rewrite Ha. vec_ring.
  - rewrite (handle_center_value keys s Hc), Ho. reflexivity.
Qed.

Lemma orbit_keeps_looking_at_focus_witness :
  ~ In "ctrl"%string ["w"; "left"; "down"; "e"]%string
  /\ orbit_taken ["w"; "left"; "down"; "e"]%string = true
  /\ center (handle_keyboard_inputs ["w"; "left"; "down"; "e"]%string home)
     = center home.
Proof.
  assert (~ In "ctrl"%string ["w"; "left"; "down"; "e"]%string) as Hc.
  { simpl. intros H.
    repeat (destruct H as [H | H]; [discriminate |]). exact H. }
  split; [exact Hc |]. split; [reflexivity |].
  exact (proj2 (proj2
    (orbit_keeps_looking_at_focus _ home Hc eq_refl))).
Defined.

(** ** The camera basis *)

(** The basis depends on the camera axis and the up vector only. *)
Lemma basis_ext (s s' : canvas) :
  camera_axis s' = camera_axis s -> up s' = up s ->
  basis_forward s' = basis_forward s
  /\ basis_side s' = basis_side s
  /\ basis_up s' = basis_up s.
Proof.
  intros Ha Hu. unfold basis_up, basis_side, basis_forward, camera_up.
  rewrite Ha, Hu. repeat split.
Qed.

(** The three vectors of the camera basis are orthogonal to each other, and
    in a well-posed scene the up vector has the length of the forward
    vector while the side vector has that length times the length of the
    part of the scene's up vector orthogonal to the axis. *)
Theorem camera_basis_is_orthogonal (s : canvas) :
  dot (basis_side s) (basis_forward s) = 0
  /\ dot (basis_up s) (basis_forward s) = 0
  /\ dot (basis_up s) (basis_side s) = 0
  /\ (well_posed s -> mag (basis_up s) = mag (basis_forward s))
  /\ dot (basis_side s) (basis_side s)
     = dot (up s) (up s) * dot (basis_forward s) (basis_forward s)
       - dot (up s) (basis_forward s) * dot (up s) (basis_forward s).
Proof.
  split; [apply side_orth |]. split; [apply up_orth |]. split.
  - unfold basis_up, set_mag. rewrite dot_vmul_l.
    rewrite (dot_norm_orth _ _ (dot_cross_r (camera_axis s) (basis_side s))).
    ring.
  - split; [intros Hwp; apply (mag_basis_up s Hwp) |].
    unfold basis_side, basis_forward, camera_up. apply dot_cross_cross.
Qed.

(** ** Pan steps *)

Section PanStep.

Variables (k : move_key) (s : canvas).
Hypothesis k_pan : In k pan_keys.

Let keys := [key_name k].

Lemma pan_step_no_ctrl : key_in "ctrl" keys = false.
Proof.
  unfold keys. destruct k_pan as [<- | [<- | [<- | [<- | [<- | [<- | []]]]]]];
    reflexivity.
Qed.

Lemma pan_step_no_orbit : orbit_taken keys = false.
Proof.
  unfold keys. destruct k_pan as [<- | [<- | [<- | [<- | [<- | [<- | []]]]]]];
    reflexivity.
Qed.

Lemma pan_step_axis :
  camera_axis (handle_keyboard_inputs keys s) = camera_axis s.
Proof. apply (no_orbit_pos_axis keys s pan_step_no_ctrl pan_step_no_orbit). Qed.

Lemma pan_step_up : up (handle_keyboard_inputs keys s) = up s.
Proof.
  rewrite (handle_up keys s pan_step_no_ctrl).
  unfold keys. destruct k_pan as [<- | [<- | [<- | [<- | [<- | [<- | []]]]]]];
    reflexivity.
Qed.

Lemma pan_step_pos :
  camera_pos (handle_keyboard_inputs keys s) =
  vadd (camera_pos s) (key_offset keys s k).
Proof.
  rewrite (proj1 (no_orbit_pos_axis keys s pan_step_no_ctrl pan_step_no_orbit)).
  unfold panned. rewrite panning_sum. unfold key_offset, keys.
  destruct k_pan as [<- | [<- | [<- | [<- | [<- | [<- | []]]]]]];
    cbn [key_name opposite]; eval_keys; vec_ring.
Qed.

End PanStep.

Lemma opposite_pan (k : move_key) : In k pan_keys -> In (opposite k) pan_keys.
Proof.
  intros [<- | [<- | [<- | [<- | [<- | [<- | []]]]]]]; simpl; tauto.
Qed.

(** A pan step is undone by the opposite pan step: a call with one pan key
    held followed by a call with the opposite key held brings the camera
    position, the camera axis, the up vector and the centre back. *)
Theorem pan_step_round_trip (k : move_key) (s : canvas) :
  In k pan_keys ->
  let s1 := handle_keyboard_inputs [key_name k] s in
  let s2 := handle_keyboard_inputs [key_name (opposite k)] s1 in
  camera_pos s2 = camera_pos s
  /\ camera_axis s2 = camera_axis s
  /\ up s2 = up s
  /\ center s2 = center s.
Proof.
  intros Hk. cbn zeta.
  pose proof (opposite_pan k Hk) as Hk'.
  set (s1 := handle_keyboard_inputs [key_name k] s).
  pose proof (pan_step_axis k s Hk) as Ha1. fold s1 in Ha1.
  pose proof (pan_step_up k s Hk) as Hu1. fold s1 in Hu1.
  pose proof (pan_step_pos k s Hk) as Hp1. fold s1 in Hp1.
  pose proof (pan_step_axis (opposite k) s1 Hk') as Ha2.
  pose proof (pan_step_up (opposite k) s1 Hk') as Hu2.
  pose proof (pan_step_pos (opposite k) s1 Hk') as Hp2.
  destruct (basis_ext s s1 Ha1 Hu1) as (Ef & Es & Eu).
  assert (camera_pos (handle_keyboard_inputs [key_name (opposite k)] s1)
          = camera_pos s) as Hp.
  { rewrite Hp2, Hp1. unfold key_offset. rewrite Ef, Es, Eu.
    destruct Hk as [<- | [<- | [<- | [<- | [<- | [<- | []]]]]]];
      cbn [key_name opposite]; eval_keys; vec_ring. }
  split; [exact Hp |].
  split; [rewrite Ha2; exact Ha1 |].
  split; [rewrite Hu2; exact Hu1 |].
  rewrite (center_is_pos_plus_axis
             (handle_keyboard_inputs [key_name (opposite k)] s1)).
  rewrite Hp, Ha2, Ha1. symmetry. apply center_is_pos_plus_axis.
Qed.

Lemma pan_step_round_trip_witness :
  In KeyA pan_keys
  /\ camera_pos (handle_keyboard_inputs ["d"]%string
                   (handle_keyboard_inputs ["a"]%string home))
     = camera_pos home.
Proof.
  assert (In KeyA pan_keys) as Hk by (unfold pan_keys; simpl; tauto).
  split; [exact Hk |].
  exact (proj1 (pan_step_round_trip KeyA home Hk)).
Defined.

(** ** Pan and roll keep the pose well posed *)

Lemma no_orbit_well_posed (keys : list string) (s : canvas) :
  key_in "ctrl" keys = false ->
  orbit_taken keys = false ->
  well_posed s ->
  well_posed (handle_keyboard_inputs keys s).
Proof.
  intros Hc Ho Hwp. unfold well_posed, camera_up.
  rewrite (proj2 (no_orbit_pos_axis keys s Hc Ho)), (handle_up keys s Hc).
  destruct (xorb (key_in "q" keys) (key_in "e" keys)); [| exact Hwp].
  intros E.
  pose proof (dot_cross_cross (rolled_up keys s) (camera_axis s)) as H.
  rewrite E, dot_vzero_l, (rolled_up_orth keys s Hwp) in H.
  rewrite <- !mag_sqr, (mag_rolled_up keys s Hwp) in H.
  pose proof (mag_axis_pos s Hwp) as Hm.
  set (m := mag (camera_axis s)) in *.
  assert (0 < m * m) as Hmm by nra.
  assert (0 < m * m * (m * m)) as Hm4 by nra.
  lra.
Qed.

(** A call that takes no orbit step (pan and roll keys only) keeps a
    well-posed scene well posed: the up vector is not turned onto the
    camera axis. *)
Theorem pan_and_roll_keep_well_posed (keys : list string) (s : canvas) :
  ~ In "ctrl"%string keys ->
  orbit_taken keys = false ->
  well_posed s ->
  well_posed (handle_keyboard_inputs keys s).
Proof.
  intros Hc Ho Hwp. apply key_in_not_In in Hc.
  exact (no_orbit_well_posed keys s Hc Ho Hwp).
Qed.

Lemma pan_and_roll_keep_well_posed_witness :
  ~ In "ctrl"%string ["q"; "w"; " "]%string
  /\ orbit_taken ["q"; "w"; " "]%string = false
  /\ well_posed home
  /\ well_posed (handle_keyboard_inputs ["q"; "w"; " "]%string home).
Proof.
  assert (~ In "ctrl"%string ["q"; "w"; " "]%string) as Hc.
  { simpl. intros H.
    repeat (destruct H as [H | H]; [discriminate |]). exact H. }
  split; [exact Hc |]. split; [reflexivity |].
  split; [exact home_well_posed |].
  exact (pan_and_roll_keep_well_posed _ home Hc eq_refl home_well_posed).
Defined.

(** ** Successive rolls *)

Section RotationComposition.

Variables (a v : vector).
Hypothesis a_nonzero : a <> vzero.
Hypothesis orth : dot v a = 0.

Lemma cross_cross_unit (u w : vector) :
  dot u u = 1 -> dot u w = 0 -> cross u (cross u w) = vneg w.
Proof.
  intros Hu Hw. unfold dot in Hu, Hw.
  apply vector_eq; cbn [vx vy vz cross vneg].
  - transitivity (vx u * (vx u * vx w + vy u * vy w + vz u * vz w)
                  - vx w * (vx u * vx u + vy u * vy u + vz u * vz u)); [ring |].
    rewrite Hu, Hw. ring.
  - transitivity (vy u * (vx u * vx w + vy u * vy w + vz u * vz w)
                  - vy w * (vx u * vx u + vy u * vy u + vz u * vz u)); [ring |].
    rewrite Hu, Hw. ring.
  - transitivity (vz u * (vx u * vx w + vy u * vy w + vz u * vz w)
                  - vz w * (vx u * vx u + vy u * vy u + vz u * vz u)); [ring |].
    rewrite Hu, Hw. ring.
Qed.

(** Two rotations about the same axis add their angles. *)
Lemma rotate_rotate (alpha beta : R) :
  rotate alpha a (rotate beta a v) = rotate (alpha + beta) a v.
Proof.
  rewrite (rotate_orth alpha a (rotate beta a v) (dot_rotate_axis beta a v orth)).
  rewrite (rotate_orth beta a v orth), (rotate_orth (alpha + beta) a v orth).
  rewrite cos_plus, sin_plus.
  pose proof (dot_norm a a_nonzero) as Hu.
  assert (dot (norm a) v = 0) as Huv
    by (apply dot_norm_orth; rewrite dot_comm; exact orth).
  set (u := norm a) in *.
  replace (cross u (vadd (vmul v (cos beta)) (vmul (cross u v) (sin beta))))
    with (vadd (vmul (cross u v) (cos beta))
               (vmul (cross u (cross u v)) (sin beta))) by vec_ring.
  rewrite (cross_cross_unit u v Hu Huv).
  vec_ring.
Qed.

Lemma rotate_zero_angle : rotate 0 a v = v.
Proof.
  rewrite (rotate_orth 0 a v orth), cos_0, sin_0. vec_ring.
Qed.

End RotationComposition.

(** An up vector that is orthogonal to the camera axis and has its length
    is its own basis up vector. *)
Lemma basis_up_fixed (s : canvas) :
  camera_axis s <> vzero ->
  dot (up s) (camera_axis s) = 0 ->
  mag (up s) = mag (camera_axis s) ->
  basis_up s = up s.
Proof.
  intros Ha Horth Hmag.
  rewrite basis_up_rejection, (dot_comm (camera_axis s) (up s)), Horth.
  replace (vsub (vmul (up s) (dot (camera_axis s) (camera_axis s)))
                (vmul (camera_axis s) 0))
    with (vmul (up s) (dot (camera_axis s) (camera_axis s))) by vec_ring.
  unfold set_mag. rewrite (norm_vmul_pos _ _ (dot_pos _ Ha)).
  rewrite <- Hmag. apply vmul_norm_mag.
Qed.

Section RollStep.

Variables (keys : list string) (s : canvas).
Hypothesis no_ctrl : key_in "ctrl" keys = false.
Hypothesis one_roll : xorb (key_in "q" keys) (key_in "e" keys) = true.
Hypothesis wp : well_posed s.

(** One roll key: the new up vector is the rotated basis up vector. *)
Lemma roll_step_up :
  up (handle_keyboard_inputs keys s) =
  rotate (roll_angle keys) (camera_axis s) (basis_up s).
Proof.
  rewrite (handle_up keys s no_ctrl), one_roll.
  unfold rolled_up. rewrite camera_roll_fst_value. unfold roll_angle.
  pose proof (rolled_is_rotated s wp) as H. cbn zeta in H.
  destruct (key_in "q" keys), (key_in "e" keys); try discriminate one_roll;
    cbn [andb negb]; apply H.
Qed.

Lemma roll_step_up_orth :
  dot (up (handle_keyboard_inputs keys s)) (camera_axis s) = 0.
Proof. rewrite roll_step_up. apply dot_rotate_axis, up_orth. Qed.

Lemma roll_step_up_mag :
  mag (up (handle_keyboard_inputs keys s)) = mag (camera_axis s).
Proof.
  rewrite roll_step_up.
  rewrite (mag_rotate _ _ _ (axis_nonzero s wp) (up_orth s)).
  apply (mag_basis_up s wp).
Qed.

End RollStep.

(** The up vector after two calls that each hold one roll key, the first
    without an orbit step. *)
Lemma two_rolls_up (keys1 keys2 : list string) (s : canvas) :
  key_in "ctrl" keys1 = false ->
  key_in "ctrl" keys2 = false ->
  orbit_taken keys1 = false ->
  xorb (key_in "q" keys1) (key_in "e" keys1) = true ->
  xorb (key_in "q" keys2) (key_in "e" keys2) = true ->
  well_posed s ->
  up (handle_keyboard_inputs keys2 (handle_keyboard_inputs keys1 s)) =
  rotate (roll_angle keys1 + roll_angle keys2) (camera_axis s) (basis_up s).
Proof.
  intros Hc1 Hc2 Ho1 Hr1 Hr2 Hwp.
  set (s1 := handle_keyboard_inputs keys1 s).
  assert (camera_axis s1 = camera_axis s) as Ha1
    by apply (no_orbit_pos_axis keys1 s Hc1 Ho1).
  assert (well_posed s1) as Hwp1
    by apply (no_orbit_well_posed keys1 s Hc1 Ho1 Hwp).
  assert (basis_up s1 = up s1) as Hb1.
  { apply basis_up_fixed; rewrite Ha1.
    - apply (axis_nonzero s Hwp).
    - apply (roll_step_up_orth keys1 s Hc1 Hr1 Hwp).
    - apply (roll_step_up_mag keys1 s Hc1 Hr1 Hwp). }
  rewrite (roll_step_up keys2 s1 Hc2 Hr2 Hwp1), Hb1, Ha1.
  unfold s1. rewrite (roll_step_up keys1 s Hc1 Hr1 Hwp).
  rewrite (rotate_rotate _ _ (axis_nonzero s Hwp) (up_orth s)).
  f_equal. ring.
Qed.

(** Rolls add up: after two calls that each hold exactly one roll key (the
    first taking no orbit step), the up vector of a well-posed scene is its
    basis up vector rotated about the camera axis by the sum of the two
    roll angles, so two calls with 'q' roll by two degrees. *)
Theorem successive_rolls_add_up (keys1 keys2 : list string) (s : canvas) :
  ~ In "ctrl"%string keys1 ->
  ~ In "ctrl"%string keys2 ->
  orbit_taken keys1 = false ->
  xorb (key_in "q" keys1) (key_in "e" keys1) = true ->
  xorb (key_in "q" keys2) (key_in "e" keys2) = true ->
  well_posed s ->
  up (handle_keyboard_inputs keys2 (handle_keyboard_inputs keys1 s)) =
  rotate (roll_angle keys1 + roll_angle keys2) (camera_axis s) (basis_up s).
Proof.
  intros Hc1 Hc2. apply key_in_not_In in Hc1, Hc2.
  apply (two_rolls_up keys1 keys2 s Hc1 Hc2).
Qed.

Lemma successive_rolls_add_up_witness :
  ~ In "ctrl"%string ["q"]%string
  /\ well_posed home
  /\ up (handle_keyboard_inputs ["q"]%string
           (handle_keyboard_inputs ["q"]%string home)) =
     rotate (roll_angle ["q"]%string + roll_angle ["q"]%string)
            (camera_axis home) (basis_up home).
Proof.
  assert (~ In "ctrl"%string ["q"]%string) as Hc.
  { simpl. intros [H | H]; [discriminate | exact H]. }
  split; [exact Hc |]. split; [exact home_well_posed |].
  exact (successive_rolls_add_up ["q"]%string ["q"]%string home
           Hc Hc eq_refl eq_refl eq_refl home_well_posed).
Defined.

(** A roll is undone by the opposite roll: after a call with one roll key
    and a call with the other one, the up vector of a well-posed scene is
    the basis up vector the first call started from. *)
Theorem roll_round_trip (keys1 keys2 : list string) (s : canvas) :
  ~ In "ctrl"%string keys1 ->
  ~ In "ctrl"%string keys2 ->
  orbit_taken keys1 = false ->
  xorb (key_in "q" keys1) (key_in "e" keys1) = true ->
  xorb (key_in "q" keys2) (key_in "e" keys2) = true ->
  key_in "q" keys2 = negb (key_in "q" keys1) ->
  well_posed s ->
  up (handle_keyboard_inputs keys2 (handle_keyboard_inputs keys1 s)) =
  basis_up s.
Proof.
  intros Hc1 Hc2 Ho1 Hr1 Hr2 Hopp Hwp. apply key_in_not_In in Hc1, Hc2.
  rewrite (two_rolls_up keys1 keys2 s Hc1 Hc2 Ho1 Hr1 Hr2 Hwp).
  replace (roll_angle keys1 + roll_angle keys2) with 0.
  - apply rotate_zero_angle, up_orth.
  - unfold roll_angle. rewrite Hopp.
    destruct (key_in "q" keys1); cbn [negb]; ring.
Qed.

Lemma roll_round_trip_witness :
  ~ In "ctrl"%string ["q"; "w"]%string
  /\ ~ In "ctrl"%string ["e"]%string
  /\ well_posed home
  /\ up (handle_keyboard_inputs ["e"]%string
           (handle_keyboard_inputs ["q"; "w"]%string home)) = basis_up home.
Proof.
  assert (~ In "ctrl"%string ["q"; "w"]%string) as Hc1.
  { simpl. intros H.
    repeat (destruct H as [H | H]; [discriminate |]). exact H. }
  assert (~ In "ctrl"%string ["e"]%string) as Hc2.
  { simpl. intros [H | H]; [discriminate | exact H]. }
  split; [exact Hc1 |]. split; [exact Hc2 |].
  split; [exact home_well_posed |].
  exact (roll_round_trip ["q"; "w"]%string ["e"]%string home
           Hc1 Hc2 eq_refl eq_refl eq_refl eq_refl home_well_posed).
Defined.

(** ** Roll keys and the position *)

(** The roll keys do not influence where the camera goes unless an up or
    down orbit step is taken: two held-key sets that differ in 'q' and 'e'
    only, with 'up' and 'down' both held or both released, give the same
    camera position. *)
Theorem roll_keys_do_not_move_camera (keys keys' : list string) (s : canvas) :
  ~ In "ctrl"%string keys ->
  (forall k, In k handled_keys -> k <> "q"%string -> k <> "e"%string ->
     key_in k keys = key_in k keys') ->
  key_in "up" keys = key_in "down" keys ->
  camera_pos (handle_keyboard_inputs keys s)
  = camera_pos (handle_keyboard_inputs keys' s).
Proof.
  intros Hc Hsame Hud. apply key_in_not_In in Hc.
  assert (forall k, In k handled_keys -> k <> "q"%string -> k <> "e"%string ->
            key_in k keys = key_in k keys') as T by exact Hsame.
  unfold handled_keys in T.
  assert (key_in "ctrl" keys' = false) as Hc'
    by (rewrite <- (T "ctrl"%string); [exact Hc | simpl; tauto | | ];
        discriminate).
  rewrite (handle_camera_pos_sum keys s Hc), (handle_camera_pos_sum keys' s Hc').
  unfold key_offset; cbn [key_name opposite].
  assert (key_in "up" keys' = key_in "down" keys') as Hud'.
  { rewrite <- (T "up"%string), <- (T "down"%string);
      [exact Hud | simpl; tauto | | | simpl; tauto | | ]; discriminate. }
  rewrite Hud, Hud'.
  rewrite (T "w"%string), (T "s"%string), (T "a"%string), (T "d"%string),
    (T " "%string), (T "shift"%string), (T "left"%string),
    (T "right"%string), (T "down"%string);
    try (simpl; tauto); try discriminate.
  destruct (key_in "down" keys'); reflexivity.
Qed.

Lemma roll_keys_do_not_move_camera_witness :
  ~ In "ctrl"%string ["q"; "w"; "left"]%string
  /\ camera_pos (handle_keyboard_inputs ["q"; "w"; "left"]%string home)
     = camera_pos (handle_keyboard_inputs ["w"; "left"]%string home).
Proof.
  assert (~ In "ctrl"%string ["q"; "w"; "left"]%string) as Hc.
  { simpl. intros H.
    repeat (destruct H as [H | H]; [discriminate |]). exact H. }
  split; [exact Hc |].
  apply (roll_keys_do_not_move_camera _ _ home Hc); [| reflexivity].
  intros k Hin Nq Ne. unfold handled_keys in Hin. simpl in Hin.
  repeat (destruct Hin as [<- | Hin];
          [first [reflexivity | exfalso; apply Nq; reflexivity
                 | exfalso; apply Ne; reflexivity] |]).
  contradiction.
Defined.

(** ** What the camera functions leave alone *)

(** Neither the key handler nor [reset_camera] touches anything but the
    camera and the autoscale flag: the background, the size, the control
    flags, the title, the caption, the widgets and the bound events are as
    before.  The autoscale flag is switched off by the writes to the camera:
    it is off after [reset_camera] and after a call of the handler without
    'ctrl', and as it was after a call with 'ctrl'. *)
Theorem camera_functions_keep_settings (keys : list string) (s : canvas) :
  same_settings s (handle_keyboard_inputs keys s)
  /\ same_settings s (reset_camera s)
  /\ autoscale (handle_keyboard_inputs keys s)
     = (if key_in "ctrl" keys then autoscale s else false)
  /\ autoscale (reset_camera s) = false.
Proof.
  split; [| split; [| split]].
  - destruct (key_in "ctrl" keys) eqn:Hc.
    + unfold handle_keyboard_inputs. rewrite Hc.
      unfold same_settings. repeat split.
    + rewrite (handle_unfold keys s Hc), camera_roll_snd.
      destruct (xorb (key_in "q" keys) (key_in "e" keys));
        unfold same_settings; repeat split.
  - unfold same_settings, reset_camera. repeat split.
  - destruct (key_in "ctrl" keys) eqn:Hc.
    + unfold handle_keyboard_inputs. rewrite Hc. reflexivity.
    + rewrite (handle_unfold keys s Hc). reflexivity.
  - reflexivity.
Qed.

(** ** The scene after initialisation *)

Lemma init_canvas_scene (height width : Z) (title caption : string)
    (grid : bool) (scene : canvas) :
  fst (init_canvas height width title caption grid scene) =
  bind_event "keydown" cb_handle_keyboard_inputs
    (convert_grid_to_z_up
       (fst (setup_ui_controls
               (apply_settings height width title caption scene)))).
Proof. reflexivity. Qed.

Lemma convert_grid_to_z_up_center (s : canvas) :
  center (convert_grid_to_z_up s) = vzero.
Proof.
  unfold convert_grid_to_z_up.
  rewrite center_set_camera_axis, !camera_pos_set_camera_pos. vec_ring.
Qed.

(** After [init_canvas], whatever the scene was, the camera at (10, 10, 10)
    looks along (-10, -10, -10) at the origin, which is the centre of the
    scene, with the z axis up; the pose is well posed and the squared
    distance to the focus is 300. *)
Theorem init_canvas_pose (height width : Z) (title caption : string)
    (grid : bool) (scene : canvas) :
  let sc := fst (init_canvas height width title caption grid scene) in
  camera_axis sc = Vector (-10) (-10) (-10)
  /\ up sc = Vector 0 0 1
  /\ center sc = vzero
  /\ vadd (camera_pos sc) (camera_axis sc) = vzero
  /\ well_posed sc
  /\ focus_distance sc * focus_distance sc = 300.
Proof.
  cbn zeta. rewrite init_canvas_scene.
  set (s2 := fst (setup_ui_controls
                    (apply_settings height width title caption scene))).
  destruct (convert_grid_to_z_up_pose s2) as (Hp & Ha & Hu).
  pose proof (convert_grid_to_z_up_center s2) as Hcen.
  set (s3 := convert_grid_to_z_up s2) in *.
  change (camera_axis (bind_event "keydown" cb_handle_keyboard_inputs s3))
    with (camera_axis s3).
  change (camera_pos (bind_event "keydown" cb_handle_keyboard_inputs s3))
    with (camera_pos s3).
  change (up (bind_event "keydown" cb_handle_keyboard_inputs s3))
    with (up s3).
  change (center (bind_event "keydown" cb_handle_keyboard_inputs s3))
    with (center s3).
  split; [exact Ha |]. split; [exact Hu |]. split; [exact Hcen |].
  split; [rewrite <- center_is_pos_plus_axis; exact Hcen |]. split.
  - unfold well_posed, camera_up.
    change (camera_axis (bind_event "keydown" cb_handle_keyboard_inputs s3))
      with (camera_axis s3).
    change (up (bind_event "keydown" cb_handle_keyboard_inputs s3))
      with (up s3).
    rewrite Ha, Hu. apply vector_neq_x. simpl. lra.
  - rewrite focus_distance_is_axis_mag, mag_sqr.
    change (camera_axis (bind_event "keydown" cb_handle_keyboard_inputs s3))
      with (camera_axis s3).
    rewrite Ha. unfold dot; simpl. lra.
Qed.

Lemma string_app_assoc (a b c : string) :
  ((a ++ b) ++ c = a ++ (b ++ c))%string.
Proof.
  induction a as [| ch a IH]; simpl; [reflexivity | rewrite IH; reflexivity].
Qed.

(** [init_canvas] writes the size it is given, a white background and no
    autoscale; an empty title or caption leaves the one of the scene in
    place; the caption (given or kept) comes first and the text of the user
    interface is appended to it; the five widgets are added after the ones
    there are, and the key handler is bound to 'keydown' after the bindings
    there are. *)
Theorem init_canvas_settings (h w : Z) (new_title new_caption : string)
    (grid : bool) (scene : canvas) :
  let sc := fst (init_canvas h w new_title new_caption grid scene) in
  width sc = w
  /\ height sc = h
  /\ background sc = white
  /\ autoscale sc = false
  /\ title sc = (if String.eqb new_title "" then title scene else new_title)
  /\ (exists ui_text : string,
        caption sc =
        ((if String.eqb new_caption "" then caption scene else new_caption)
         ++ ui_text)%string)
  /\ widgets sc = widgets scene ++
       [button cb_reset_camera "Reset Camera";
        menu ["r1"; "r2"]%string cb_menu_item_chosen;
        checkbox cb_reference_frame_checkbox "Show Reference Frames";
        checkbox cb_robot_visibility_checkbox "Show Robot";
        slider cb_opacity_slider]
  /\ bound sc = bound scene ++ [("keydown"%string, cb_handle_keyboard_inputs)].
Proof.
  cbn zeta. rewrite init_canvas_scene.
  split; [reflexivity |]. split; [reflexivity |]. split; [reflexivity |].
  split; [reflexivity |]. split; [reflexivity |]. split.
  - exists (newline ++ tab ++ newline ++ tab ++ newline ++ "Opacity:"
            ++ newline ++ controls_str)%string.
    change (caption
              (bind_event "keydown" cb_handle_keyboard_inputs
                 (convert_grid_to_z_up
                    (fst (setup_ui_controls
                            (apply_settings h w new_title new_caption scene))))))
      with ((((((((((if String.eqb new_caption "" then caption scene
                    else new_caption)
                   ++ newline) ++ tab) ++ newline) ++ tab) ++ newline)
               ++ "Opacity:") ++ newline) ++ controls_str)%string).
    rewrite !string_app_assoc. reflexivity.
  - split; [| reflexivity].
    change (widgets
              (bind_event "keydown" cb_handle_keyboard_inputs
                 (convert_grid_to_z_up
                    (fst (setup_ui_controls
                            (apply_settings h w new_title new_caption scene))))))
      with (((((widgets scene
                ++ [button cb_reset_camera "Reset Camera"])
               ++ [menu ["r1"; "r2"]%string cb_menu_item_chosen])
              ++ [checkbox cb_reference_frame_checkbox "Show Reference Frames"])
             ++ [checkbox cb_robot_visibility_checkbox "Show Robot"])
            ++ [slider cb_opacity_slider]).
    rewrite <- !app_assoc. reflexivity.
Qed.

(** ** The rotation step and the distance *)

(** The rotation step is the chord of one degree on the circle of radius
    d: for d >= 0 it is 2 d sin(half a degree); it is proportional to the
    distance and vanishes when the camera is at the focus. *)
Theorem move_dist_is_chord_of_one_degree (d : R) :
  0 <= d ->
  move_dist d = 2 * d * sin (radians 1 / 2)
  /\ move_dist d = d * move_dist 1
  /\ move_dist 0 = 0.
Proof.
  assert (0 <= sin (radians 1 / 2)) as Hsin.
  { pose proof one_degree_bounds as [Hlo Hhi]. pose proof PI_lower.
    apply sin_ge_0; lra. }
  assert (forall x, 0 <= x -> move_dist x = 2 * x * sin (radians 1 / 2)) as F.
  { intros x Hx. rewrite move_dist_chord.
    replace (cos (radians 1)) with (cos (2 * (radians 1 / 2)))
      by (f_equal; field).
    rewrite cos_2a_sin.
    replace (2 * x ^ 2
             - 2 * x ^ 2 * (1 - 2 * sin (radians 1 / 2) * sin (radians 1 / 2)))
      with ((2 * x * sin (radians 1 / 2)) * (2 * x * sin (radians 1 / 2)))
      by ring.
    apply sqrt_square. nra. }
  intros Hd. split; [apply F, Hd |]. split.
  - rewrite (F d Hd), (F 1) by lra. ring.
  - rewrite (F 0) by lra. ring.
Qed.

Lemma move_dist_is_chord_of_one_degree_witness :
  0 <= 17.32 /\ move_dist 17.32 = 2 * 17.32 * sin (radians 1 / 2).
Proof.
  assert (0 <= 17.32) as H by lra.
  split; [exact H |].
  exact (proj1 (move_dist_is_chord_of_one_degree 17.32 H)).
Defined.

(** An orbit step never keeps the distance: in a well-posed scene, a call
    with exactly one arrow key and no pan key held leaves the camera at
    distance sqrt(d^2 + step^2) from the focus, which is more than the
    distance d before the call. *)
Theorem orbit_step_increases_distance (k : move_key) (keys : list string)
    (s : canvas) :
  ~ In "ctrl"%string keys ->
  single_arrow k keys ->
  no_pan keys ->
  well_posed s ->
  focus_distance (handle_keyboard_inputs keys s) =
    sqrt (focus_distance s * focus_distance s
          + move_dist (focus_distance s) * move_dist (focus_distance s))
  /\ focus_distance s < focus_distance (handle_keyboard_inputs keys s).
Proof.
  intros Hc Hone Hpan Hwp. apply key_in_not_In in Hc.
  pose proof (no_pan_panned keys s Hpan) as Hstay.
  split.
  - apply (one_arrow_distance k keys s Hc Hone Hwp Hstay).
  - apply (one_arrow_distance_grows k keys s Hc Hone Hwp Hstay).
Qed.

Lemma orbit_step_increases_distance_witness :
  ~ In "ctrl"%string ["down"; "q"]%string
  /\ single_arrow KeyDown ["down"; "q"]%string
  /\ no_pan ["down"; "q"]%string
  /\ well_posed home
  /\ focus_distance home
     < focus_distance (handle_keyboard_inputs ["down"; "q"]%string home).
Proof.
  assert (~ In "ctrl"%string ["down"; "q"]%string) as Hc.
  { simpl. intros H.
    repeat (destruct H as [H | H]; [discriminate |]). exact H. }
  assert (single_arrow KeyDown ["down"; "q"]%string) as Hone.
  { split; [simpl; tauto |]. split; [reflexivity |].
    intros k' [<- | [<- | [<- | [<- | []]]]] N;
      try reflexivity; exfalso; apply N; reflexivity. }
  assert (no_pan ["down"; "q"]%string) as Hpan.
  { intros k [<- | [<- | [<- | [<- | [<- | [<- | []]]]]]]; reflexivity. }
  split; [exact Hc |]. split; [exact Hone |]. split; [exact Hpan |].
  split; [exact home_well_posed |].
  exact (proj2 (orbit_step_increases_distance KeyDown _ home
                  Hc Hone Hpan home_well_posed)).
Defined.

(** ** Reset and the initial view *)

(** [reset_camera] brings back the view that [init_canvas] sets up: the
    camera position, the camera axis, the up vector and the centre after a
    reset of any scene are those of any freshly initialised scene. *)
Theorem reset_camera_restores_initial_view (height width : Z)
    (title caption : string) (grid : bool) (scene s : canvas) :
  let sc := fst (init_canvas height width title caption grid scene) in
  camera_pos (reset_camera s) = camera_pos sc
  /\ camera_axis (reset_camera s) = camera_axis sc
  /\ up (reset_camera s) = up sc
  /\ center (reset_camera s) = center sc.
Proof.
  cbn zeta. rewrite init_canvas_scene.
  set (s2 := fst (setup_ui_controls
                    (apply_settings height width title caption scene))).
  destruct (convert_grid_to_z_up_pose s2) as (Hp & Ha & Hu).
  pose proof (convert_grid_to_z_up_center s2) as Hcen.
  destruct (reset_camera_pose s) as (Rp & Ra & Ru & Rc).
  set (s3 := convert_grid_to_z_up s2) in *.
  change (camera_axis (bind_event "keydown" cb_handle_keyboard_inputs s3))
    with (camera_axis s3).
  change (camera_pos (bind_event "keydown" cb_handle_keyboard_inputs s3))
    with (camera_pos s3).
  change (up (bind_event "keydown" cb_handle_keyboard_inputs s3))
    with (up s3).
  change (center (bind_event "keydown" cb_handle_keyboard_inputs s3))
    with (center s3).
  rewrite Rp, Ra, Ru, Rc, Hp, Ha, Hu, Hcen. repeat split.
Qed.
